(** * Pradon-Bot: a shallow embedding of [src/main.py]

    The bot watches three Reddit feeds (submissions, comments, inbox) and
    answers with a random quote.  This file embeds the Python source in Rocq:

    - Python [str] values are sequences of Unicode code points ([list N]);
      [str.lower], [str.translate], [str.maketrans] and the [in] operator are
      modelled after CPython, the Unicode character database being a
      parameter ([UnicodeData]);
    - the module globals that the code reads at run time ([QUOTES]) live in
      the state [World], next to the trace of calls made on the platform and
      on the logger;
    - functions with effects run in the state-and-exception monad [M];
    - the [while True] loop of [restart] is run with a bound on its number of
      iterations, and its properties are proved for every bound. *)

From Stdlib Require Import String Ascii.
From Stdlib Require Import NArith Arith List Bool Lia Permutation.
Import ListNotations.

Set Implicit Arguments.

(* ================================================================== *)
(** ** Python strings *)

Definition code_point := N.
Definition pystr := list code_point.

(** An ASCII literal of the source, as a Python string. *)
Definition py (s : string) : pystr := map N_of_ascii (list_ascii_of_string s).

(** The Unicode character database that CPython's [str.lower] consults:
    [_PyUnicode_ToLowerFull] (used here for code points from 128 on; the
    ASCII range is written out below), [_PyUnicode_IsCased] and
    [_PyUnicode_IsCaseIgnorable]. *)
Class UnicodeData := {
  to_lower_full : code_point -> pystr;
  is_cased : code_point -> bool;
  is_case_ignorable : code_point -> bool
}.

Definition is_ascii_upper (c : code_point) : bool :=
  ((65 <=? c) && (c <=? 90))%N.

Definition ascii_tolower (c : code_point) : code_point :=
  if is_ascii_upper c then (c + 32)%N else c.

Definition CAPITAL_SIGMA : code_point := 0x3A3%N.
Definition FINAL_SIGMA : code_point := 0x3C2%N.
Definition SMALL_SIGMA : code_point := 0x3C3%N.

Section Lower.
Context {U : UnicodeData}.

Fixpoint first_not_ignorable (l : pystr) : option code_point :=
  match l with
  | [] => None
  | c :: t => if is_case_ignorable c then first_not_ignorable t else Some c
  end.

(** [handle_capital_sigma] of unicodeobject.c: the characters before the
    sigma are given nearest first. *)
Definition handle_capital_sigma (before_rev after : pystr) : code_point :=
  let final_sigma :=
    match first_not_ignorable before_rev with
    | Some c =>
        is_cased c &&
        match first_not_ignorable after with
        | None => true
        | Some d => negb (is_cased d)
        end
    | None => false
    end in
  if final_sigma then FINAL_SIGMA else SMALL_SIGMA.

Definition lower_ucs4 (before_rev after : pystr) (c : code_point) : pystr :=
  if (c =? CAPITAL_SIGMA)%N then [handle_capital_sigma before_rev after]
  else if (c <? 128)%N then [ascii_tolower c]
  else to_lower_full c.

Fixpoint do_lower (before_rev s : pystr) : pystr :=
  match s with
  | [] => []
  | c :: rest => lower_ucs4 before_rev rest c ++ do_lower (c :: before_rev) rest
  end.

(** [str.lower()] *)
Definition lower (s : pystr) : pystr := do_lower [] s.

End Lower.

(** [s.startswith(p)] *)
Fixpoint startswith (s p : pystr) {struct p} : bool :=
  match p, s with
  | [], _ => true
  | _ :: _, [] => false
  | a :: p', b :: s' => (a =? b)%N && startswith s' p'
  end.

(** [needle in hay] on strings *)
Fixpoint str_in (needle hay : pystr) : bool :=
  startswith hay needle ||
  match hay with
  | [] => false
  | _ :: t => str_in needle t
  end.

(** [needle] occurs in [hay] as a contiguous run of characters. *)
Definition occurs_in (needle hay : pystr) : Prop :=
  exists pre post, hay = pre ++ needle ++ post.

(** *** Translation tables: the dict that [str.maketrans] builds *)

Inductive trans_value :=
| TNone                      (* None: the character is deleted *)
| TOrd (c : code_point)      (* an ordinal *)
| TStr (s : pystr).          (* a string *)

Definition trans_table := list (code_point * trans_value).

Definition dict_set (k : code_point) (v : trans_value) (d : trans_table)
  : trans_table := (k, v) :: d.

Fixpoint dict_get (k : code_point) (d : trans_table) : option trans_value :=
  match d with
  | [] => None
  | (k', v) :: t => if (k =? k')%N then Some v else dict_get k t
  end.

(** [str.maketrans(x, y, z)]; [None] stands for the ValueError raised when
    [x] and [y] differ in length. *)
Definition maketrans (x y z : pystr) : option trans_table :=
  if Nat.eqb (length x) (length y) then
    let d := fold_left (fun d xy => dict_set (fst xy) (TOrd (snd xy)) d)
                       (combine x y) [] in
    Some (fold_left (fun d c => dict_set c TNone d) z d)
  else None.

Definition translate_char (table : trans_table) (c : code_point) : pystr :=
  match dict_get c table with
  | None => [c]                 (* LookupError: left untouched *)
  | Some TNone => []
  | Some (TOrd d) => [d]
  | Some (TStr t) => t
  end.

(** [s.translate(table)] *)
Definition translate (s : pystr) (table : trans_table) : pystr :=
  flat_map (translate_char table) s.

(** [string.punctuation]; the double quote is given by its code. *)
Definition punctuation : pystr :=
  py "!" ++ [34%N] ++ py "#$%&'()*+,-./:;<=>?@[\]^_`{|}~".

Definition is_punctuation (c : code_point) : bool :=
  existsb (N.eqb c) punctuation.

(** The value of [str.maketrans("", "", string.punctuation)]. *)
Definition punctuation_table : trans_table :=
  Eval cbv in
    match maketrans [] [] punctuation with
    | Some t => t
    | None => []
    end.

(* ================================================================== *)
(** ** TextNormalizer *)

Section Normalizer.
Context {U : UnicodeData}.

Definition standardize_text (text : pystr) : pystr :=
  translate (lower text) punctuation_table.

(** The normalizer in the words of the specification: lowercase, then drop
    the punctuation characters and keep the rest in order. *)
Definition remove_punctuation (s : pystr) : pystr :=
  filter (fun c => negb (is_punctuation c)) s.

Definition spec_normalize (text : pystr) : pystr :=
  remove_punctuation (lower text).

End Normalizer.

(** [a == b] on strings *)
Fixpoint str_eq (a b : pystr) : bool :=
  match a, b with
  | [], [] => true
  | x :: a', y :: b' => (x =? y)%N && str_eq a' b'
  | _, _ => false
  end.

(* ================================================================== *)
(** ** Module constants and the items of the feeds *)

Definition QUOTES : list pystr := [
  py "We are the creators of our own reality, the architects of our own destiny.";
  py "The soul, like the mind, is never truly free until it has reconciled itself with the uncertainties of existence.";
  py "In every moment, we must choose between despair and hope, for it is only through choice that we find meaning.";
  py "The true path to wisdom is not through reason alone, but through the balance of emotion and intellect.";
  py "Life does not follow the rules of logic; it unfolds in mysterious and unpredictable ways, challenging us to adapt.";
  py "To be human is to be constantly in conflict with the world, yet also to find beauty within that struggle.";
  py "It is not enough to seek answers; we must embrace the questions that lead us to deeper understanding.";
  py "Freedom is not given to us, it is something we must claim for ourselves.";
  py "We are all part of a greater story, one that transcends our individual lives and connects us to something far more profound.";
  py "True power lies in the ability to shape the world around us, but even more so in the capacity to shape our own thoughts."
].

(** The elements of the set literal [KEYWORDS], as written. *)
Definition KEYWORDS : list pystr :=
  [py "reality"; py "soul"; py "wisdom"; py "life"; py "human";
   py "freedom"; py "power"].

Definition DONT_COMMENT_KEYWORD : pystr := py "!nopost".

(** What [obj.reply] and [message.mark_read] act on. *)
Inductive item_ref :=
| CommentRef (id : N)
| SubmissionRef (id : N).

Record Comment := {
  comment_id : N;
  comment_body : pystr
}.

Record Submission := {
  post_id : N;
  post_selftext : pystr;
  post_title : pystr
}.

(** An item of [reddit.inbox.stream()]: a [Comment] (a reply or a mention)
    or a private [Message]; both carry a subject and a body. *)
Record InboxItem := {
  item_id : N;
  item_subject : pystr;
  item_body : pystr;
  item_is_comment : bool        (* isinstance(message, Comment) *)
}.

(* ================================================================== *)
(** ** Exceptions, the logger and the calls on the platform *)

Inductive py_exception :=
| PyException (message : pystr)  (* any instance of the class Exception *)
| KeyboardInterrupt              (* the BaseException classes that are *)
| SystemExit                     (* not subclasses of Exception        *)
| GeneratorExit.

Definition isinstance_Exception (e : py_exception) : bool :=
  match e with
  | PyException _ => true
  | _ => false
  end.

(** [str(e)] *)
Definition exception_str (e : py_exception) : pystr :=
  match e with
  | PyException m => m
  | _ => []
  end.

Inductive log_level := DEBUG | INFO | ERROR.

Definition level_no (l : log_level) : nat :=
  match l with
  | DEBUG => 10
  | INFO => 20
  | ERROR => 40
  end.

(** [logging.basicConfig(..., level=logging.INFO, ...)] *)
Definition configured_level : log_level := INFO.

Definition isEnabledFor (l : log_level) : bool :=
  level_no configured_level <=? level_no l.

Inductive call :=
| Reply (target : item_ref) (text : pystr)     (* obj.reply(text) *)
| MarkRead (target : item_ref)                 (* message.mark_read() *)
| LogRecord (level : log_level) (msg : pystr). (* a record the logger emits *)

(** A feed as one subscription sees it: the items it yields, then how the
    generator ends (an exception, or exhaustion). *)
Record Feed (A : Type) := {
  delivered : list A;
  ending : option py_exception
}.

(** What the process cannot decide by itself. *)
Class Environment := {
  USERNAME : option pystr;                   (* os.getenv("USERNAME") *)
  keyword_iter : list pystr;                 (* the order in which this
                                                process iterates KEYWORDS *)
  entropy : nat -> nat;                      (* the n-th random number *)
  platform_raises : list call -> call -> option py_exception;
                                             (* does this call raise, after
                                                the calls made so far? *)
  comments_stream : pystr -> nat -> Feed Comment;
  submissions_stream : pystr -> nat -> Feed Submission;
  inbox_stream : nat -> Feed InboxItem       (* the n-th subscription *)
}.

(* ================================================================== *)
(** ** The state and the monad of effects *)

Record World := {
  g_QUOTES : list pystr;      (* the list the global QUOTES is bound to *)
  calls : list call;          (* the calls made so far, oldest first *)
  draws : nat;                (* random numbers drawn so far *)
  subscriptions : nat         (* streams opened so far *)
}.

(** The state when the threads start. *)
Definition initial_world : World :=
  {| g_QUOTES := QUOTES; calls := []; draws := 0; subscriptions := 0 |}.

Inductive outcome (A : Type) :=
| Returned (a : A)
| Raised (e : py_exception).
Arguments Returned {A} a.
Arguments Raised {A} e.

Definition M (A : Type) := World -> outcome A * World.

Definition ret {A} (a : A) : M A := fun w => (Returned a, w).

Definition raise {A} (e : py_exception) : M A := fun w => (Raised e, w).

Definition bind {A B} (m : M A) (k : A -> M B) : M B :=
  fun w =>
    match m w with
    | (Returned a, w') => k a w'
    | (Raised e, w') => (Raised e, w')
    end.

Notation "x <- m ;; k" := (bind m (fun x => k))
  (at level 61, m at next level, right associativity).
Notation "m ;; k" := (bind m (fun _ => k))
  (at level 61, right associativity).

Definition record_call (c : call) (w : World) : World :=
  {| g_QUOTES := g_QUOTES w; calls := calls w ++ [c];
     draws := draws w; subscriptions := subscriptions w |}.

Definition emit (c : call) : M unit := fun w => (Returned tt, record_call c w).

(** [logger.debug], [logger.info], [logger.error] *)
Definition logger_log (l : log_level) (msg : pystr) : M unit :=
  if isEnabledFor l then emit (LogRecord l msg) else ret tt.

(** The value of the global QUOTES *)
Definition get_QUOTES : M (list pystr) := fun w => (Returned (g_QUOTES w), w).

Fixpoint for_each {A} (items : list A) (body : A -> M unit) : M unit :=
  match items with
  | [] => ret tt
  | x :: rest => body x ;; for_each rest body
  end.

(** [for x in feed: body(x)] *)
Definition consume {A} (feed : Feed A) (body : A -> M unit) : M unit :=
  for_each (delivered feed) body ;;
  match ending feed with
  | Some e => raise e
  | None => ret tt
  end.

(* ================================================================== *)
(** ** The program *)

Section Program.
Context {U : UnicodeData} {E : Environment}.

(** *** TriggerPolicy *)

(** [for keyword in ...: if test(keyword): return True] followed by
    [return False] *)
Fixpoint for_keyword (keywords : list pystr) (test : pystr -> bool) : bool :=
  match keywords with
  | [] => false
  | keyword :: rest => if test keyword then true else for_keyword rest test
  end.

Definition should_comment_on_comment (comment : Comment) : bool :=
  if str_in (lower DONT_COMMENT_KEYWORD) (lower (comment_body comment))
  then false
  else
    let body := standardize_text (comment_body comment) in
    for_keyword keyword_iter (fun keyword => str_in keyword body).

Definition should_comment_on_post (post : Submission) : bool :=
  if str_in (lower DONT_COMMENT_KEYWORD) (lower (post_selftext post))
     || str_in (lower DONT_COMMENT_KEYWORD) (lower (post_title post))
  then false
  else
    let body := standardize_text (post_selftext post) in
    let title := standardize_text (post_title post) in
    for_keyword keyword_iter
      (fun keyword => str_in keyword body || str_in keyword title).

(** *** ResponseComposer *)

(** [random.choice(seq)]: IndexError on an empty sequence, else
    [seq[_randbelow(len(seq))]]. *)
Definition random_choice (seq : list pystr) : M pystr :=
  fun w =>
    match seq with
    | [] => (Raised (PyException (py "Cannot choose from an empty sequence")), w)
    | _ :: _ =>
        match nth_error seq (entropy (draws w) mod length seq) with
        | Some x =>
            (Returned x,
             {| g_QUOTES := g_QUOTES w; calls := calls w;
                draws := S (draws w); subscriptions := subscriptions w |})
        | None => (Raised (PyException (py "list index out of range")), w)
        end
    end.

(** A call on the platform: it is made, and it may raise. *)
Definition platform_call (c : call) : M unit :=
  fun w =>
    match platform_raises (calls w) c with
    | Some e => (Raised e, record_call c w)
    | None => (Returned tt, record_call c w)
    end.

(** How an f-string renders the value of [os.getenv]. *)
Definition format_env (v : option pystr) : pystr :=
  match v with
  | Some s => s
  | None => py "None"
  end.

(** The footer: two newlines, then the link to the account. *)
Definition footer : pystr :=
  [10%N; 10%N] ++ py "[^(source)](https://www.reddit.com/user/"
  ++ format_env USERNAME ++ py ")".

Definition comment_string (quote : pystr) : pystr := quote ++ footer.

Definition write_comment (obj : item_ref) : M unit :=
  quotes <- get_QUOTES ;;
  quote <- random_choice quotes ;;
  platform_call (Reply obj (comment_string quote)).

(** *** StreamWatcher: the bodies of the three [for] loops *)

Definition on_comment (comment : Comment) : M unit :=
  logger_log DEBUG (py "Analyzing comment: " ++ comment_body comment) ;;
  let should_comment := should_comment_on_comment comment in
  if should_comment then
    write_comment (CommentRef (comment_id comment)) ;;
    logger_log INFO (py "Added comment to comment: " ++ comment_body comment)
  else
    logger_log DEBUG (py "Not commenting").

Definition on_post (post : Submission) : M unit :=
  logger_log DEBUG (py "Analyzing post: " ++ post_title post) ;;
  let should_comment := should_comment_on_post post in
  if should_comment then
    write_comment (SubmissionRef (post_id post)) ;;
    logger_log INFO (py "Added comment to post: " ++ post_title post)
  else
    logger_log DEBUG (py "Not commenting").

Definition on_mention (message : InboxItem) : M unit :=
  let subject := standardize_text (item_subject message) in
  if str_eq subject (py "username mention") && item_is_comment message then
    write_comment (CommentRef (item_id message)) ;;
    logger_log INFO (py "Added comment to message: " ++ item_body message) ;;
    platform_call (MarkRead (CommentRef (item_id message)))
  else
    ret tt.

(** Opening a stream: the next subscription of the environment. *)
Definition open_stream {A} (stream : nat -> Feed A) : M (Feed A) :=
  fun w =>
    (Returned (stream (subscriptions w)),
     {| g_QUOTES := g_QUOTES w; calls := calls w;
        draws := draws w; subscriptions := S (subscriptions w) |}).

(** The functions that [@restart] decorates. *)
Definition iterate_comments_handler (subreddit_name : pystr) : M unit :=
  feed <- open_stream (comments_stream subreddit_name) ;;
  consume feed on_comment.

Definition iterate_posts_handler (subreddit_name : pystr) : M unit :=
  feed <- open_stream (submissions_stream subreddit_name) ;;
  consume feed on_post.

Definition listen_and_process_mentions_handler (_ : unit) : M unit :=
  feed <- open_stream inbox_stream ;;
  consume feed on_mention.

End Program.

(** *** SupervisedRunner *)

Section Restart.
(** A handler has a state of its own kind; the loop only needs to log. *)
Variables State Args : Type.
Variable handler : Args -> State -> outcome unit * State.
Variable log : log_level -> pystr -> State -> State.
Variable repr_args : Args -> pystr.

(** How the loop stands after a bounded number of iterations: still inside
    [while True], or left by an exception that [except Exception] does not
    catch.  [invoked] lists the arguments of each call of the handler. *)
Inductive loop_status :=
| Looping
| Propagated (e : py_exception).

Record loop_result := {
  status : loop_status;
  invoked : list Args;
  final : State
}.

Fixpoint while_true (fuel : nat) (args : Args) (st : State) (seen : list Args)
  : loop_result :=
  match fuel with
  | 0 => {| status := Looping; invoked := seen; final := st |}
  | S fuel' =>
      match handler args st with
      | (Returned _, st') => while_true fuel' args st' (seen ++ [args])
      | (Raised e, st') =>
          if isinstance_Exception e then
            while_true fuel' args
              (log ERROR (py "Exception: " ++ exception_str e) st')
              (seen ++ [args])
          else
            {| status := Propagated e; invoked := seen ++ [args];
               final := st' |}
      end
  end.

(** The function that [restart] builds around [handler], run for at most
    [fuel] iterations of its loop. *)
Definition wrapped_handler (fuel : nat) (args : Args) (st : State)
  : loop_result :=
  while_true fuel args
    (log INFO (py "Starting thread with: " ++ repr_args args) st) [].

(** [restart(handler)] returns [wrapped_handler]. *)
Definition restart : nat -> Args -> State -> loop_result := wrapped_handler.

(** The handler raises an instance of Exception on each of the first [n]
    calls that the loop makes, starting in the state [st]. *)
Fixpoint caught_first (n : nat) (args : Args) (st : State) : Prop :=
  match n with
  | 0 => True
  | S n' =>
      exists e st',
        handler args st = (Raised e, st') /\
        isinstance_Exception e = true /\
        caught_first n' args (log ERROR (py "Exception: " ++ exception_str e) st')
  end.

End Restart.

Section EntryPoints.
Context {U : UnicodeData} {E : Environment}.

Definition world_log (l : log_level) (msg : pystr) (w : World) : World :=
  snd (logger_log l msg w).

(** [repr] of a string, after [unicode_repr] of CPython: double quotes when
    the string holds an apostrophe and no double quote, single quotes
    otherwise; the quote and the backslash are escaped, tab, newline and
    return are written with their letters, the other control characters of
    ASCII in hexadecimal.  Code points from 128 on are copied, as the
    printable ones are. *)
Definition hex_digit (n : N) : code_point :=
  if (n <? 10)%N then (48 + n)%N else (87 + n)%N.

Definition repr_char (quote c : code_point) : pystr :=
  if ((c =? quote) || (c =? 92))%N then [92%N; c]
  else if (c =? 9)%N then [92; 116]%N
  else if (c =? 10)%N then [92; 110]%N
  else if (c =? 13)%N then [92; 114]%N
  else if ((c <? 32) || (c =? 127))%N
       then [92; 120]%N ++ [hex_digit (c / 16); hex_digit (c mod 16)]
  else [c].

Definition repr_str (s : pystr) : pystr :=
  let quote :=
    if existsb (N.eqb 39) s && negb (existsb (N.eqb 34) s)
    then 34%N else 39%N in
  [quote] ++ flat_map (repr_char quote) s ++ [quote].

(** [repr] of the one-element tuple of arguments, and of the empty one. *)
Definition repr_name (name : pystr) : pystr :=
  py "(" ++ repr_str name ++ py ",)".

Definition iterate_comments :=
  restart iterate_comments_handler world_log repr_name.

Definition iterate_posts :=
  restart iterate_posts_handler world_log repr_name.

Definition listen_and_process_mentions :=
  restart listen_and_process_mentions_handler world_log (fun _ => py "()").

End EntryPoints.

(** What the three threads do to the shared state, at two grains: an entry
    point run for some iterations of its loop, or one item handled.  A run
    of the program is a sequence of these, in any interleaving. *)
Inductive operation :=
| RunComments (fuel : nat) (subreddit_name : pystr)
| RunPosts (fuel : nat) (subreddit_name : pystr)
| RunMentions (fuel : nat)
| HandleComment (comment : Comment)
| HandlePost (post : Submission)
| HandleMention (message : InboxItem)
| WriteComment (obj : item_ref).

Definition run_operation {U : UnicodeData} {E : Environment}
    (op : operation) (w : World) : World :=
  match op with
  | RunComments fuel name => final (iterate_comments fuel name w)
  | RunPosts fuel name => final (iterate_posts fuel name w)
  | RunMentions fuel => final (listen_and_process_mentions fuel tt w)
  | HandleComment comment => snd (on_comment comment w)
  | HandlePost post => snd (on_post post w)
  | HandleMention message => snd (on_mention message w)
  | WriteComment obj => snd (write_comment obj w)
  end.

Definition run_all {U : UnicodeData} {E : Environment}
    (ops : list operation) (w : World) : World :=
  fold_left (fun w op => run_operation op w) ops w.

(* ================================================================== *)
(** ** The vocabulary of the properties *)

(** A character that [str.lower] leaves alone wherever it stands. *)
Definition lower_fixed {U : UnicodeData} (c : code_point) : Prop :=
  c <> CAPITAL_SIGMA /\ is_ascii_upper c = false /\
  ((128 <= c)%N -> to_lower_full c = [c]).

(** What the Unicode database guarantees of its lowercase mappings: the
    characters they produce are lowercase already. *)
Class LowerStable (U : UnicodeData) : Prop := {
  full_stable : forall c, (128 <= c)%N -> c <> CAPITAL_SIGMA ->
                          Forall lower_fixed (to_lower_full c);
  sigma_stable : lower_fixed FINAL_SIGMA /\ lower_fixed SMALL_SIGMA
}.

(** An ASCII character that is no capital letter. *)
Definition ascii_plain (c : code_point) : Prop :=
  (c < 128)%N /\ is_ascii_upper c = false.

(** The marker occurs in the text when letter case is ignored: the
    lowercased marker is a substring of the lowercased text. *)
Definition occurs_ci {U : UnicodeData} (marker text : pystr) : Prop :=
  occurs_in (lower marker) (lower text).

(** The footer up to the slash before the handle. *)
Definition footer_head : pystr :=
  [10%N; 10%N] ++ py "[^(source)](https://www.reddit.com/user".

(** No quote holds a slash, every quote holds a space, and within a quote
    followed by the head of the footer only that quote occurs. *)
Definition quotes_apart : bool :=
  forallb (fun q => negb (existsb (N.eqb 47) q) && existsb (N.eqb 32) q) QUOTES
  && forallb (fun quote =>
       forallb (fun q => implb (str_in q (quote ++ footer_head)) (str_eq q quote))
               QUOTES) QUOTES.

(** The world after one draw of the random source. *)
Definition drew (w : World) : World :=
  {| g_QUOTES := g_QUOTES w; calls := calls w;
     draws := S (draws w); subscriptions := subscriptions w |}.

(** The items of the inbox that the mentions watcher answers. *)
Definition mention_eligible {U : UnicodeData} (message : InboxItem) : Prop :=
  standardize_text (item_subject message) = py "username mention" /\
  item_is_comment message = true.

(** The same ASCII text up to the case of its letters. *)
Definition same_letters (a b : pystr) : Prop :=
  Forall2 (fun x y => (x < 128)%N /\ (y < 128)%N /\
                      ascii_tolower x = ascii_tolower y) a b.

(** The computation leaves the binding of QUOTES as it found it. *)
Definition keeps_QUOTES {A} (m : M A) : Prop :=
  forall w, g_QUOTES (snd (m w)) = g_QUOTES w.

(* ================================================================== *)
(** ** Inputs for applying the theorems *)

(** A fragment of the Unicode database, for applying the theorems to
    concrete text: the Latin-1 capitals, the dotted capital I and the Kelvin
    sign carry their lowercase mappings, the other code points from 128 on
    map to themselves. *)
Definition latin1_upper (c : code_point) : bool :=
  ((0xC0 <=? c) && (c <=? 0xDE) && negb (c =? 0xD7))%N.

Definition fragment_lower_full (c : code_point) : pystr :=
  if (c =? 0x130)%N then [0x69; 0x307]%N
  else if (c =? 0x212A)%N then [0x6B]%N
  else if latin1_upper c then [(c + 32)%N]
  else [c].

Definition fragment_is_cased (c : code_point) : bool :=
  (is_ascii_upper c || ((97 <=? c) && (c <=? 122))
   || latin1_upper c || latin1_upper (c - 32)
   || existsb (N.eqb c) [0x130; 0x212A; 0x3A3; 0x3C2; 0x3C3])%N.

Definition fragment_is_case_ignorable (c : code_point) : bool :=
  existsb (N.eqb c)
    [0x27; 0x2E; 0x3A; 0x5E; 0x60; 0xA8; 0xAD; 0xAF; 0xB4; 0xB7; 0xB8; 0x307]%N.

Definition unicode_fragment : UnicodeData := {|
  to_lower_full := fragment_lower_full;
  is_cased := fragment_is_cased;
  is_case_ignorable := fragment_is_case_ignorable
|}.

(** Text with capitals, punctuation and characters beyond ASCII. *)
Definition sample_text : pystr :=
  py "H" ++ [0xC9%N] ++ py "llo, W" ++ [0xD6%N] ++ py "RLD! "
  ++ [0x130; 0x212A; 0x3A3]%N.

(** An environment for applying the theorems to concrete input: the set is
    iterated backwards, no call on the platform raises. *)
Definition sample_environment : Environment := {|
  USERNAME := Some (py "pradon-bot");
  keyword_iter := rev KEYWORDS;
  entropy := fun n => 7 * n + 3;
  platform_raises := fun _ _ => None;
  comments_stream := fun _ _ => {| delivered := []; ending := None |};
  submissions_stream := fun _ _ => {| delivered := []; ending := None |};
  inbox_stream := fun _ => {| delivered := []; ending := None |}
|}.

Definition sample_comment : Comment :=
  {| comment_id := 1; comment_body := py "Reality is fragile" |}.

Definition sample_post : Submission :=
  {| post_id := 2; post_selftext := py "This life! !NoPost";
     post_title := py "On wisdom" |}.

Definition sample_mention : InboxItem :=
  {| item_id := 7; item_subject := py "Username Mention";
     item_body := py "u/pradon-bot what is life?"; item_is_comment := true |}.

(** A username mention whose body holds the opt-out marker. *)
Definition marked_mention : InboxItem :=
  {| item_id := 9; item_subject := py "username mention";
     item_body := py "!nopost u/pradon-bot"; item_is_comment := true |}.

Definition marked_comment : Comment :=
  {| comment_id := 3; comment_body := py "The power of life !NOPOST" |}.

Definition plain_comment : Comment :=
  {| comment_id := 4; comment_body := py "Nice weather today." |}.

(** A handler with a counter of its own, as in the test of the runner: it
    raises on its first three calls and returns from then on. *)
Definition flaky_handler (_ : unit) (st : nat * list pystr)
  : outcome unit * (nat * list pystr) :=
  if fst st <? 3
  then (Raised (PyException (py "boom")), (S (fst st), snd st))
  else (Returned tt, (S (fst st), snd st)).

(** A handler that ends the thread: [sys.exit()] raises SystemExit. *)
Definition exiting_handler (_ : unit) (st : nat * list pystr)
  : outcome unit * (nat * list pystr) :=
  (Raised SystemExit, (S (fst st), snd st)).

Definition list_log (_ : log_level) (msg : pystr) (st : nat * list pystr)
  : nat * list pystr := (fst st, snd st ++ [msg]).

Definition repr_unit (_ : unit) : pystr := py "()".

(* ================================================================== *)
(** ** The vocabulary of the further properties *)

(** The quote is written with one of the keywords, in whatever case. *)
Definition quote_has_keyword (quote : pystr) : bool :=
  existsb (fun keyword => str_in keyword (map ascii_tolower quote)) KEYWORDS.

(** The items that [obj.reply] and [mark_read] were called on, in order. *)
Definition reply_targets (cs : list call) : list item_ref :=
  flat_map (fun c => match c with Reply t _ => [t] | _ => [] end) cs.

Definition read_targets (cs : list call) : list item_ref :=
  flat_map (fun c => match c with MarkRead t => [t] | _ => [] end) cs.

(** The test of the mentions watcher, as the code computes it. *)
Definition is_eligible {U : UnicodeData} (message : InboxItem) : bool :=
  str_eq (standardize_text (item_subject message)) (py "username mention")
  && item_is_comment message.

(** No call on the platform raises. *)
Definition calm (E : Environment) : Prop :=
  forall history c, platform_raises history c = None.

(** What the platform and the feeds raise are instances of Exception. *)
Definition raises_Exceptions_only (E : Environment) : Prop :=
  (forall history c e, platform_raises history c = Some e ->
                       isinstance_Exception e = true) /\
  (forall name n e, ending (comments_stream name n) = Some e ->
                    isinstance_Exception e = true) /\
  (forall name n e, ending (submissions_stream name n) = Some e ->
                    isinstance_Exception e = true) /\
  (forall n e, ending (inbox_stream n) = Some e ->
               isinstance_Exception e = true).

(** The computation raises instances of Exception only. *)
Definition raises_caught {A} (m : M A) : Prop :=
  forall w e w', m w = (Raised e, w') -> isinstance_Exception e = true.

(** The world with more calls on its trace. *)
Definition with_calls (cs : list call) (w : World) : World :=
  {| g_QUOTES := g_QUOTES w; calls := calls w ++ cs;
     draws := draws w; subscriptions := subscriptions w |}.

(** A reply whose text is a quote followed by the footer, or another call. *)
Definition well_formed_call {E : Environment} (c : call) : Prop :=
  match c with
  | Reply _ text => exists quote, In quote QUOTES /\ text = comment_string quote
  | _ => True
  end.

(** The computation opens no stream. *)
Definition keeps_subscriptions {A} (m : M A) : Prop :=
  forall w, subscriptions (snd (m w)) = subscriptions w.

(** The world after the reply to an inbox item went through and the
    success record was logged. *)
Definition replied_and_logged {E : Environment}
    (message : InboxItem) (quote : pystr) (w : World) : World :=
  record_call
    (LogRecord INFO (py "Added comment to message: " ++ item_body message))
    (record_call
       (Reply (CommentRef (item_id message)) (comment_string quote))
       (drew w)).

(** An environment whose platform refuses every reply and whose feeds end
    by an error after two comments. *)
Definition faulty_environment : Environment := {|
  USERNAME := Some (py "pradon-bot");
  keyword_iter := KEYWORDS;
  entropy := fun n => n;
  platform_raises := fun _ c =>
    match c with
    | Reply _ _ => Some (PyException (py "503"))
    | _ => None
    end;
  comments_stream := fun _ _ =>
    {| delivered := [plain_comment; sample_comment; marked_comment];
       ending := Some (PyException (py "stream closed")) |};
  submissions_stream := fun _ _ =>
    {| delivered := [sample_post];
       ending := Some (PyException (py "stream closed")) |};
  inbox_stream := fun _ =>
    {| delivered := [sample_mention];
       ending := Some (PyException (py "stream closed")) |}
|}.

(** An environment whose feeds deliver items and where nothing raises. *)
Definition busy_environment : Environment := {|
  USERNAME := Some (py "pradon-bot");
  keyword_iter := KEYWORDS;
  entropy := fun n => 3 * n + 1;
  platform_raises := fun _ _ => None;
  comments_stream := fun _ _ =>
    {| delivered := [plain_comment; sample_comment; marked_comment];
       ending := None |};
  submissions_stream := fun _ _ =>
    {| delivered := [sample_post]; ending := None |};
  inbox_stream := fun _ =>
    {| delivered := [sample_mention; marked_mention]; ending := None |}
|}.

(* ================================================================== *)
(** * Properties *)

(** ** Strings *)

Lemma startswith_spec (s p : pystr) :
  startswith s p = true <-> exists post, s = p ++ post.
Proof.
  revert s; induction p as [|a p IH]; intros s; simpl.
  - split; [intros _; now exists s | reflexivity].
  - destruct s as [|b s].
    + split; [discriminate | intros [post H]; discriminate].
    + rewrite andb_true_iff, N.eqb_eq, IH. split.
      * intros [-> [post ->]]. now exists post.
      * intros [post H]. injection H as -> ->. split; [reflexivity | now exists post].
Qed.

Lemma str_in_spec (needle hay : pystr) :
  str_in needle hay = true <-> occurs_in needle hay.
Proof.
  unfold occurs_in. induction hay as [|c hay IH]; simpl.
  - rewrite orb_false_r, startswith_spec. split.
    + intros [post H]. now exists [], post.
    + intros [pre [post H]]. destruct pre; simpl in H.
      * now exists post.
      * discriminate.
  - rewrite orb_true_iff, startswith_spec, IH. split.
    + intros [[post H] | [pre [post H]]].
      * now exists [], post.
      * exists (c :: pre), post. now rewrite H.
    + intros [pre [post H]]. destruct pre as [|d pre]; simpl in H.
      * left. now exists post.
      * right. injection H as _ H. now exists pre, post.
Qed.

Lemma str_in_false (needle hay : pystr) :
  str_in needle hay = false <-> ~ occurs_in needle hay.
Proof.
  rewrite <- str_in_spec. destruct (str_in needle hay); split; congruence.
Qed.

Lemma str_eq_spec (a b : pystr) : str_eq a b = true <-> a = b.
Proof.
  revert b; induction a as [|x a IH]; intros [|y b]; simpl;
    try (split; [discriminate | congruence]); [tauto|].
  rewrite andb_true_iff, N.eqb_eq, IH. split.
  - now intros [-> ->].
  - intros H; injection H as -> ->; auto.
Qed.

Lemma occurs_in_refl (s : pystr) : occurs_in s s.
Proof. exists [], []. now rewrite app_nil_r. Qed.

Lemma occurs_in_app (needle a b : pystr) :
  occurs_in needle a \/ occurs_in needle b -> occurs_in needle (a ++ b).
Proof.
  intros [[pre [post ->]] | [pre [post ->]]].
  - exists pre, (post ++ b). now rewrite <- !app_assoc.
  - exists (a ++ pre), post. now rewrite <- app_assoc.
Qed.

(** An occurrence that avoids the character [c] lies on one side of it. *)
Lemma occurs_in_split (needle a b : pystr) (c : code_point) :
  ~ In c needle ->
  occurs_in needle (a ++ c :: b) ->
  occurs_in needle a \/ occurs_in needle b.
Proof.
  intros Hc [pre [post H]].
  apply app_eq_app in H as [l [[Ha Hn] | [Hp Hb]]].
  - apply app_eq_app in Hn as [l' [[Hn Hb] | [Hl Hpost]]].
    + destruct l' as [|x l'].
      * left. exists pre, []. rewrite app_nil_r in *. now subst.
      * exfalso. apply Hc. injection Hb as <- _. subst needle.
        apply in_or_app. right. now left.
    + left. exists pre, l'. now subst.
  - destruct l as [|x l]; simpl in Hb.
    + destruct needle as [|y needle].
      * left. exists a, []. now rewrite app_nil_r.
      * exfalso. apply Hc. injection Hb as <- _. now left.
    + right. injection Hb as _ Hb. now exists l, post.
Qed.

(** ** The translation table of the normalizer *)

Lemma dict_get_fold_delete (z : pystr) (d : trans_table) (c : code_point) :
  dict_get c (fold_left (fun d c => dict_set c TNone d) z d) =
  if existsb (N.eqb c) z then Some TNone else dict_get c d.
Proof.
  revert d; induction z as [|x z IH]; intros d; simpl; [reflexivity|].
  rewrite IH. simpl. destruct (existsb (N.eqb c) z).
  - now rewrite orb_true_r.
  - rewrite orb_false_r. now destruct (c =? x)%N.
Qed.

(** [str.maketrans("", "", z)] never raises, and its table deletes exactly
    the characters of [z]. *)
Lemma maketrans_delete (z : pystr) :
  exists t, maketrans [] [] z = Some t /\
            forall c, translate_char t c = if existsb (N.eqb c) z then [] else [c].
Proof.
  eexists; split; [reflexivity|]. intros c. unfold translate_char.
  rewrite dict_get_fold_delete. now destruct (existsb (N.eqb c) z).
Qed.

Lemma maketrans_punctuation :
  maketrans [] [] punctuation = Some punctuation_table.
Proof. reflexivity. Qed.

Lemma translate_char_punctuation (c : code_point) :
  translate_char punctuation_table c = if is_punctuation c then [] else [c].
Proof.
  destruct (maketrans_delete punctuation) as [t [Ht Hc]].
  rewrite maketrans_punctuation in Ht. injection Ht as <-. apply Hc.
Qed.

Lemma translate_punctuation (s : pystr) :
  translate s punctuation_table = remove_punctuation s.
Proof.
  unfold translate, remove_punctuation.
  induction s as [|c s IH]; simpl; [reflexivity|].
  rewrite IH, translate_char_punctuation. now destruct (is_punctuation c).
Qed.

Lemma is_punctuation_spec (c : code_point) :
  is_punctuation c = true <-> In c punctuation.
Proof.
  unfold is_punctuation. rewrite existsb_exists. split.
  - intros [x [Hx Heq]]. apply N.eqb_eq in Heq. now subst.
  - intros H. exists c. split; [assumption | apply N.eqb_refl].
Qed.

(** The punctuation characters are the four ASCII ranges around the digits
    and the letters. *)
Lemma is_punctuation_ranges (c : code_point) :
  is_punctuation c = true <->
  (33 <= c <= 47 \/ 58 <= c <= 64 \/ 91 <= c <= 96 \/ 123 <= c <= 126)%N.
Proof.
  rewrite is_punctuation_spec. split.
  - intros H. cbv [punctuation py map list_ascii_of_string N_of_ascii
                   N_of_digits app] in H. simpl in H.
    repeat (destruct H as [<- | H]; [lia|]). destruct H.
  - intros H.
    assert (Hc : exists n, c = N.of_nat n /\ (n <= 126)%nat).
    { exists (N.to_nat c). split; lia. }
    destruct Hc as [n [-> Hn]].
    do 127 (destruct n as [|n];
            [first [exfalso; lia | apply is_punctuation_spec; reflexivity]|]).
    exfalso; lia.
Qed.

Lemma remove_punctuation_app (a b : pystr) :
  remove_punctuation (a ++ b) = remove_punctuation a ++ remove_punctuation b.
Proof. apply filter_app. Qed.

Lemma remove_punctuation_none (s : pystr) :
  Forall (fun c => is_punctuation c = false) s -> remove_punctuation s = s.
Proof.
  induction 1 as [|c s Hc _ IH]; simpl; [reflexivity|].
  now rewrite Hc, IH.
Qed.

Lemma remove_punctuation_clean (s : pystr) :
  Forall (fun c => is_punctuation c = false) (remove_punctuation s).
Proof.
  induction s as [|c s IH]; simpl; [constructor|].
  destruct (is_punctuation c) eqn:Hc; simpl; [assumption | now constructor].
Qed.

Lemma remove_punctuation_idempotent (s : pystr) :
  remove_punctuation (remove_punctuation s) = remove_punctuation s.
Proof. apply remove_punctuation_none, remove_punctuation_clean. Qed.

Lemma remove_punctuation_keeps_occurrence (needle s : pystr) :
  Forall (fun c => is_punctuation c = false) needle ->
  occurs_in needle s -> occurs_in needle (remove_punctuation s).
Proof.
  intros Hn [pre [post ->]].
  exists (remove_punctuation pre), (remove_punctuation post).
  now rewrite !remove_punctuation_app, (remove_punctuation_none Hn).
Qed.

(** ** Lowercasing *)

Section LowerFacts.
Context {U : UnicodeData}.

Lemma lower_ucs4_ascii (b a : pystr) (c : code_point) :
  (c < 128)%N -> lower_ucs4 b a c = [ascii_tolower c].
Proof.
  intros Hc. unfold lower_ucs4, CAPITAL_SIGMA.
  destruct (N.eqb_spec c 931); [lia|].
  destruct (N.ltb_spec c 128); [reflexivity | lia].
Qed.

(** On an ASCII string, [lower] maps the capital letters to the small ones. *)
Lemma do_lower_ascii (b s : pystr) :
  Forall (fun c => (c < 128)%N) s -> do_lower b s = map ascii_tolower s.
Proof.
  intros H; revert b; induction H as [|c s Hc _ IH]; intros b; simpl;
    [reflexivity|].
  now rewrite lower_ucs4_ascii, IH.
Qed.

Lemma ascii_plain_fixed (c : code_point) : ascii_plain c -> lower_fixed c.
Proof.
  intros [Hc Hu]. unfold lower_fixed, CAPITAL_SIGMA.
  repeat split; [lia | assumption | lia].
Qed.

Lemma lower_ucs4_fixed (b a : pystr) (c : code_point) :
  lower_fixed c -> lower_ucs4 b a c = [c].
Proof.
  intros [Hs [Hu Hf]]. unfold lower_ucs4.
  destruct (N.eqb_spec c CAPITAL_SIGMA); [contradiction|].
  destruct (N.ltb_spec c 128).
  - unfold ascii_tolower. now rewrite Hu.
  - now apply Hf.
Qed.

Lemma do_lower_fixed (b s : pystr) :
  Forall lower_fixed s -> do_lower b s = s.
Proof.
  intros H; revert b; induction H as [|c s Hc _ IH]; intros b; simpl;
    [reflexivity|].
  now rewrite lower_ucs4_fixed, IH.
Qed.

Lemma is_ascii_upper_spec (c : code_point) :
  is_ascii_upper c = true <-> (65 <= c <= 90)%N.
Proof.
  unfold is_ascii_upper. rewrite andb_true_iff, !N.leb_le. tauto.
Qed.

Lemma ascii_tolower_plain (c : code_point) :
  (c < 128)%N -> ascii_plain (ascii_tolower c).
Proof.
  intros Hc. unfold ascii_plain, ascii_tolower.
  destruct (is_ascii_upper c) eqn:Hu; [|now split].
  apply is_ascii_upper_spec in Hu. split; [lia|].
  destruct (is_ascii_upper (c + 32)%N) eqn:Hv; [|reflexivity].
  apply is_ascii_upper_spec in Hv. lia.
Qed.

(** Cutting a string: the characters after the cut are lowercased as they
    would be with the cut part before them. *)
Lemma do_lower_app (b x y : pystr) :
  exists x', do_lower b (x ++ y) = x' ++ do_lower (rev x ++ b) y.
Proof.
  revert b; induction x as [|c x IH]; intros b; simpl.
  - now exists [].
  - destruct (IH (c :: b)) as [x' Hx']. rewrite Hx'.
    exists (lower_ucs4 b (x ++ y) c ++ x').
    now rewrite <- !app_assoc.
Qed.

Lemma do_lower_fixed_prefix (b needle post : pystr) :
  Forall lower_fixed needle ->
  do_lower b (needle ++ post) = needle ++ do_lower (rev needle ++ b) post.
Proof.
  intros H; revert b; induction H as [|c s Hc _ IH]; intros b; simpl;
    [reflexivity|].
  rewrite lower_ucs4_fixed, IH by assumption. simpl.
  now rewrite <- app_assoc.
Qed.

(** A run of characters that [lower] leaves alone is still there after it. *)
Lemma lower_keeps_occurrence (needle s : pystr) :
  Forall lower_fixed needle ->
  occurs_in needle s -> occurs_in needle (lower s).
Proof.
  intros Hn [pre [post ->]]. unfold lower.
  destruct (do_lower_app [] pre (needle ++ post)) as [x' ->].
  rewrite do_lower_fixed_prefix by assumption.
  now exists x', (do_lower (rev needle ++ rev pre ++ []) post).
Qed.

Section Stable.
Context {HS : LowerStable U}.

Lemma lower_ucs4_output_fixed (b a : pystr) (c : code_point) :
  Forall lower_fixed (lower_ucs4 b a c).
Proof.
  unfold lower_ucs4.
  destruct (N.eqb_spec c CAPITAL_SIGMA) as [->|Hs].
  - constructor; [|constructor]. unfold handle_capital_sigma.
    destruct sigma_stable as [H1 H2].
    match goal with |- context [if ?x then _ else _] => destruct x end;
      assumption.
  - destruct (N.ltb_spec c 128).
    + constructor; [|constructor].
      now apply ascii_plain_fixed, ascii_tolower_plain.
    + now apply full_stable.
Qed.

(** Every character that [lower] produces is one that [lower] leaves alone. *)
Lemma do_lower_output_fixed (b s : pystr) :
  Forall lower_fixed (do_lower b s).
Proof.
  revert b; induction s as [|c s IH]; intros b; simpl; [constructor|].
  apply Forall_app. split; [apply lower_ucs4_output_fixed | apply IH].
Qed.

Lemma lower_idempotent (s : pystr) : lower (lower s) = lower s.
Proof. apply do_lower_fixed, do_lower_output_fixed. Qed.

End Stable.
End LowerFacts.

(** ** TextNormalizer *)

Lemma latin1_upper_spec (c : code_point) :
  latin1_upper c = true <-> (0xC0 <= c <= 0xDE /\ c <> 0xD7)%N.
Proof.
  unfold latin1_upper.
  rewrite !andb_true_iff, negb_true_iff, !N.leb_le, N.eqb_neq. tauto.
Qed.

Lemma fragment_fixed_above (c : code_point) :
  (0xDF <= c)%N -> c <> 0x130%N -> c <> 0x212A%N -> c <> CAPITAL_SIGMA ->
  lower_fixed (U := unicode_fragment) c.
Proof.
  intros H1 H2 H3 H4. unfold lower_fixed. split; [assumption|]. split.
  - destruct (is_ascii_upper c) eqn:Hu; [|reflexivity].
    apply is_ascii_upper_spec in Hu. lia.
  - intros _. simpl. unfold fragment_lower_full.
    destruct (N.eqb_spec c 0x130); [contradiction|].
    destruct (N.eqb_spec c 0x212A); [contradiction|].
    destruct (latin1_upper c) eqn:Hl; [|reflexivity].
    apply latin1_upper_spec in Hl. lia.
Qed.

Lemma unicode_fragment_stable : LowerStable unicode_fragment.
Proof.
  split.
  - intros c Hc Hs. simpl. unfold fragment_lower_full.
    destruct (N.eqb_spec c 0x130) as [->|H1].
    { constructor; [|constructor; [|constructor]].
      - apply ascii_plain_fixed. split; [lia | reflexivity].
      - apply fragment_fixed_above; unfold CAPITAL_SIGMA; lia. }
    destruct (N.eqb_spec c 0x212A) as [->|H2].
    { constructor; [|constructor].
      apply ascii_plain_fixed. split; [lia | reflexivity]. }
    destruct (latin1_upper c) eqn:Hl.
    + apply latin1_upper_spec in Hl. constructor; [|constructor].
      apply fragment_fixed_above; unfold CAPITAL_SIGMA; lia.
    + constructor; [|constructor]. unfold lower_fixed.
      split; [assumption|]. split.
      * destruct (is_ascii_upper c) eqn:Hu; [|reflexivity].
        apply is_ascii_upper_spec in Hu. lia.
      * intros _. simpl. unfold fragment_lower_full.
        destruct (N.eqb_spec c 0x130); [contradiction|].
        destruct (N.eqb_spec c 0x212A); [contradiction|].
        now rewrite Hl.
  - split; apply fragment_fixed_above;
      unfold FINAL_SIGMA, SMALL_SIGMA, CAPITAL_SIGMA; lia.
Qed.

Section NormalizerFacts.
Context {U : UnicodeData}.

Lemma standardize_text_spec (text : pystr) :
  standardize_text text = spec_normalize text.
Proof. unfold standardize_text, spec_normalize. apply translate_punctuation. Qed.

Lemma lowercase_letter_plain (c : code_point) :
  (97 <= c <= 122)%N -> ascii_plain c /\ is_punctuation c = false.
Proof.
  intros Hc. repeat split.
  - lia.
  - destruct (is_ascii_upper c) eqn:Hu; [|reflexivity].
    apply is_ascii_upper_spec in Hu. lia.
  - destruct (is_punctuation c) eqn:Hp; [|reflexivity].
    apply is_punctuation_ranges in Hp. lia.
Qed.

Lemma Forall_filter_keep (A : Type) (P : A -> Prop) (f : A -> bool) (l : list A) :
  Forall P l -> Forall P (filter f l).
Proof.
  induction 1 as [|x l Hx _ IH]; simpl; [constructor|].
  destruct (f x); [now constructor | assumption].
Qed.

(** Text of ASCII characters that are neither capitals nor punctuation is
    left as it is. *)
Lemma standardize_text_plain (text : pystr) :
  Forall (fun c => ascii_plain c /\ ~ In c punctuation) text ->
  standardize_text text = text.
Proof.
  intros Hplain. rewrite standardize_text_spec. unfold spec_normalize, lower.
  rewrite do_lower_fixed.
  - apply remove_punctuation_none.
    eapply Forall_impl; [|exact Hplain].
    intros c [_ Hc]. destruct (is_punctuation c) eqn:Hp; [|reflexivity].
    apply is_punctuation_spec in Hp. contradiction.
  - eapply Forall_impl; [|exact Hplain].
    intros c [Hc _]. now apply ascii_plain_fixed.
Qed.

(** C5. For every string, the empty one included, [standardize_text] builds
    its translation table without error and returns the lowercased string
    with every punctuation character removed and the other characters kept
    in their order.  The punctuation characters are those of
    [string.punctuation], the ASCII characters that are printable and are
    neither letters, digits nor the blank.  The result holds none of them;
    on ASCII text it is the text with capitals made small and punctuation
    dropped; text of small letters, digits and blanks comes back
    unchanged. *)
Theorem standardize_text_lowercases_and_strips (text : pystr) :
  maketrans [] [] punctuation = Some punctuation_table /\
  (forall c, In c punctuation <->
             (33 <= c <= 47 \/ 58 <= c <= 64 \/ 91 <= c <= 96 \/
              123 <= c <= 126)%N) /\
  standardize_text text = spec_normalize text /\
  Forall (fun c => ~ In c punctuation) (standardize_text text) /\
  (Forall (fun c => (c < 128)%N) text ->
   standardize_text text = remove_punctuation (map ascii_tolower text)) /\
  (Forall (fun c => ascii_plain c /\ ~ In c punctuation) text ->
   standardize_text text = text) /\
  standardize_text [] = [].
Proof.
  split; [exact maketrans_punctuation|].
  split; [intros c; rewrite <- is_punctuation_spec; apply is_punctuation_ranges|].
  split; [apply standardize_text_spec|].
  rewrite standardize_text_spec. unfold spec_normalize.
  split; [|split; [|split]].
  - eapply Forall_impl; [|apply remove_punctuation_clean].
    intros c Hc Hin. apply is_punctuation_spec in Hin. congruence.
  - intros Hascii. unfold lower. now rewrite do_lower_ascii.
  - intros Hplain. rewrite <- (standardize_text_plain Hplain) at 2.
    now rewrite standardize_text_spec.
  - reflexivity.
Qed.

(** C7. [standardize_text] is idempotent, given that the lowercase mappings
    of the Unicode database produce lowercase characters. *)
Theorem standardize_text_idempotent {HS : LowerStable U} (s : pystr) :
  standardize_text (standardize_text s) = standardize_text s.
Proof.
  rewrite !standardize_text_spec. unfold spec_normalize, lower.
  rewrite do_lower_fixed.
  - apply remove_punctuation_idempotent.
  - unfold remove_punctuation. apply Forall_filter_keep.
    apply do_lower_output_fixed.
Qed.

Lemma keyword_letters :
  Forall (Forall (fun c => (97 <= c <= 122)%N)) KEYWORDS.
Proof. repeat constructor; cbv; discriminate. Qed.

Lemma keyword_plain (k : pystr) :
  In k KEYWORDS ->
  Forall lower_fixed k /\ Forall (fun c => is_punctuation c = false) k.
Proof.
  intros Hk. pose proof keyword_letters as HL.
  rewrite Forall_forall in HL. specialize (HL k Hk).
  split; (eapply Forall_impl; [|exact HL]); intros c Hc;
    destruct (lowercase_letter_plain Hc) as [Hp Hq];
    [now apply ascii_plain_fixed | assumption].
Qed.

(** C10. Every keyword is made of small ASCII letters and is a fixed point
    of [standardize_text]; so a keyword that stands in the text, or in the
    lowercased text, is found in the normalized text. *)
Theorem keywords_fixed_by_standardize_text :
  Forall (fun k => standardize_text k = k /\
                   Forall (fun c => (97 <= c <= 122)%N) k) KEYWORDS /\
  (forall k text, In k KEYWORDS -> occurs_in k (lower text) ->
                  str_in k (standardize_text text) = true) /\
  (forall k text, In k KEYWORDS -> occurs_in k text ->
                  str_in k (standardize_text text) = true).
Proof.
  assert (Hlow : forall k text, In k KEYWORDS -> occurs_in k (lower text) ->
                                str_in k (standardize_text text) = true).
  { intros k text Hk Hocc. apply str_in_spec.
    rewrite standardize_text_spec. unfold spec_normalize.
    apply remove_punctuation_keeps_occurrence; [|assumption].
    now apply keyword_plain. }
  split; [|split; [exact Hlow|]].
  - pose proof keyword_letters as HL.
    rewrite Forall_forall in *. intros k Hk. split; [|now apply HL].
    apply standardize_text_plain. eapply Forall_impl; [|exact (HL k Hk)].
    intros c Hc. destruct (lowercase_letter_plain Hc) as [Hp Hq].
    split; [assumption|]. intros Hin. apply is_punctuation_spec in Hin.
    congruence.
  - intros k text Hk Hocc. apply Hlow; [assumption|].
    apply lower_keeps_occurrence; [|assumption]. now apply keyword_plain.
Qed.

End NormalizerFacts.

Example standardize_sample_text :
  standardize_text (U := unicode_fragment) sample_text =
  py "h" ++ [0xE9%N] ++ py "llo w" ++ [0xF6%N] ++ py "rld "
  ++ [0x69; 0x307; 0x6B; 0x3C2]%N.
Proof. vm_compute. reflexivity. Qed.

Lemma standardize_text_idempotent_witness :
  standardize_text (U := unicode_fragment)
    (standardize_text (U := unicode_fragment) sample_text) =
  standardize_text (U := unicode_fragment) sample_text.
Proof.
  exact (@standardize_text_idempotent unicode_fragment
           unicode_fragment_stable sample_text).
Defined.

(** ** TriggerPolicy *)

Lemma sample_environment_perm :
  Permutation (keyword_iter (Environment := sample_environment)) KEYWORDS.
Proof. simpl. apply Permutation_sym, Permutation_rev. Qed.

Lemma for_keyword_spec (keywords : list pystr) (test : pystr -> bool) :
  for_keyword keywords test = true <->
  exists keyword, In keyword keywords /\ test keyword = true.
Proof.
  induction keywords as [|k rest IH]; simpl.
  - split; [discriminate | intros [k [[] _]]].
  - destruct (test k) eqn:Hk.
    + split; [intros _; exists k; auto | reflexivity].
    + rewrite IH. split.
      * intros [k' [Hin Ht]]. exists k'. auto.
      * intros [k' [[<- | Hin] Ht]]; [congruence | exists k'; auto].
Qed.

(** The loop over the set does not depend on the order of iteration. *)
Lemma for_keyword_perm (ks ks' : list pystr) (test : pystr -> bool) :
  Permutation ks ks' -> for_keyword ks test = for_keyword ks' test.
Proof.
  intros HP. apply eq_true_iff_eq. rewrite !for_keyword_spec.
  split; intros [k [Hin Ht]]; exists k; split; try assumption.
  - eapply Permutation_in; eassumption.
  - eapply Permutation_in; [apply Permutation_sym|]; eassumption.
Qed.

Section PolicyFacts.
Context {U : UnicodeData} {E : Environment}.
Hypothesis keyword_iter_perm : Permutation keyword_iter KEYWORDS.

Lemma marker_lowercase : lower DONT_COMMENT_KEYWORD = DONT_COMMENT_KEYWORD.
Proof. reflexivity. Qed.

Lemma should_comment_on_comment_spec (comment : Comment) :
  should_comment_on_comment comment = true <->
  ~ occurs_ci DONT_COMMENT_KEYWORD (comment_body comment) /\
  exists keyword, In keyword KEYWORDS /\
                  occurs_in keyword (standardize_text (comment_body comment)).
Proof.
  unfold should_comment_on_comment, occurs_ci. cbv zeta.
  rewrite (for_keyword_perm _ keyword_iter_perm).
  destruct (str_in _ (lower (comment_body comment))) eqn:Hm.
  - apply str_in_spec in Hm. split; [discriminate | intros [Hn _]; contradiction].
  - apply str_in_false in Hm. rewrite for_keyword_spec. split.
    + intros [k [Hin Hk]]. split; [assumption|].
      exists k. split; [assumption | now apply str_in_spec].
    + intros [_ [k [Hin Hk]]]. exists k. split; [assumption | now apply str_in_spec].
Qed.

Lemma should_comment_on_post_spec (post : Submission) :
  should_comment_on_post post = true <->
  (~ occurs_ci DONT_COMMENT_KEYWORD (post_selftext post) /\
   ~ occurs_ci DONT_COMMENT_KEYWORD (post_title post)) /\
  exists keyword, In keyword KEYWORDS /\
    (occurs_in keyword (standardize_text (post_selftext post)) \/
     occurs_in keyword (standardize_text (post_title post))).
Proof.
  unfold should_comment_on_post, occurs_ci. cbv zeta.
  rewrite (for_keyword_perm _ keyword_iter_perm).
  destruct (str_in _ (lower (post_selftext post))) eqn:Hs; cbn [orb].
  - apply str_in_spec in Hs. split; [discriminate | intros [[Hn _] _]; contradiction].
  - destruct (str_in _ (lower (post_title post))) eqn:Ht.
    + apply str_in_spec in Ht.
      split; [discriminate | intros [[_ Hn] _]; contradiction].
    + apply str_in_false in Hs, Ht. rewrite for_keyword_spec. split.
      * intros [k [Hin Hk]]. split; [now split|]. exists k. split; [assumption|].
        apply orb_true_iff in Hk. now rewrite <- !str_in_spec.
      * intros [_ [k [Hin Hk]]]. exists k. split; [assumption|].
        apply orb_true_iff. now rewrite !str_in_spec.
Qed.

(** C1. The trigger policy answers true exactly when the opt-out marker
    does not occur, letter case ignored, in any raw field (the body of a
    comment; the selftext or the title of a post) and some keyword of the
    set is a substring of some normalized field.  The marker comes first:
    a field that holds it gives false whatever the keywords.  A keyword
    inside a longer word counts: "new lifestyle tips" triggers by "life". *)
Theorem trigger_policy_iff (comment : Comment) (post : Submission) :
  (should_comment_on_comment comment = true <->
   ~ occurs_ci DONT_COMMENT_KEYWORD (comment_body comment) /\
   exists keyword, In keyword KEYWORDS /\
     occurs_in keyword (standardize_text (comment_body comment))) /\
  (should_comment_on_post post = true <->
   (~ occurs_ci DONT_COMMENT_KEYWORD (post_selftext post) /\
    ~ occurs_ci DONT_COMMENT_KEYWORD (post_title post)) /\
   exists keyword, In keyword KEYWORDS /\
     (occurs_in keyword (standardize_text (post_selftext post)) \/
      occurs_in keyword (standardize_text (post_title post)))) /\
  (occurs_ci DONT_COMMENT_KEYWORD (comment_body comment) ->
   should_comment_on_comment comment = false) /\
  (occurs_ci DONT_COMMENT_KEYWORD (post_selftext post) \/
   occurs_ci DONT_COMMENT_KEYWORD (post_title post) ->
   should_comment_on_post post = false) /\
  (forall id,
     should_comment_on_comment
       {| comment_id := id; comment_body := py "new lifestyle tips" |} = true /\
     ~ In (py "lifestyle") KEYWORDS).
Proof.
  split; [apply should_comment_on_comment_spec|].
  split; [apply should_comment_on_post_spec|].
  split; [|split].
  - intros Hm. destruct (should_comment_on_comment comment) eqn:Hc; [|reflexivity].
    apply should_comment_on_comment_spec in Hc. tauto.
  - intros Hm. destruct (should_comment_on_post post) eqn:Hc; [|reflexivity].
    apply should_comment_on_post_spec in Hc. tauto.
  - intros id. split.
    + apply should_comment_on_comment_spec. simpl. split.
      * apply str_in_false. vm_compute. reflexivity.
      * exists (py "life"). split; [simpl; tauto|].
        apply str_in_spec. vm_compute. reflexivity.
    + simpl. intros H. repeat (destruct H as [H|H]; [discriminate|]). exact H.
Qed.

End PolicyFacts.

Lemma trigger_policy_iff_witness :
  should_comment_on_comment (U := unicode_fragment) (E := sample_environment)
    sample_comment = true /\
  should_comment_on_post (U := unicode_fragment) (E := sample_environment)
    sample_post = false.
Proof.
  pose proof (@trigger_policy_iff unicode_fragment sample_environment
                sample_environment_perm sample_comment sample_post)
    as [Hc [_ [_ [Hp _]]]].
  split.
  - apply Hc. split.
    + apply str_in_false. vm_compute. reflexivity.
    + exists (py "reality"). split; [simpl; tauto|].
      apply str_in_spec. vm_compute. reflexivity.
  - apply Hp. left. apply str_in_spec. vm_compute. reflexivity.
Defined.

(** ** ResponseComposer *)

Lemma occurs_in_has (needle hay : pystr) (c : code_point) :
  occurs_in needle hay -> In c needle -> In c hay.
Proof.
  intros [pre [post ->]] Hc. apply in_or_app. right.
  apply in_or_app. now left.
Qed.

Lemma quotes_apart_true : quotes_apart = true.
Proof. vm_compute. reflexivity. Qed.

Lemma quote_no_slash_has_space (q : pystr) :
  In q QUOTES -> ~ In 47%N q /\ In 32%N q.
Proof.
  intros Hq. pose proof quotes_apart_true as H. unfold quotes_apart in H.
  apply andb_true_iff in H as [H _].
  rewrite forallb_forall in H. specialize (H q Hq).
  apply andb_true_iff in H as [H1 H2]. split.
  - intros Hin. apply negb_true_iff in H1.
    assert (existsb (N.eqb 47) q = true); [|congruence].
    apply existsb_exists. exists 47%N. split; [assumption | reflexivity].
  - apply existsb_exists in H2 as [x [Hx Heq]].
    apply N.eqb_eq in Heq. now subst.
Qed.

Lemma quote_alone_before_footer (q quote : pystr) :
  In q QUOTES -> In quote QUOTES ->
  occurs_in q (quote ++ footer_head) -> q = quote.
Proof.
  intros Hq Hquote Hocc. pose proof quotes_apart_true as H.
  unfold quotes_apart in H. apply andb_true_iff in H as [_ H].
  rewrite forallb_forall in H. specialize (H quote Hquote).
  rewrite forallb_forall in H. specialize (H q Hq).
  apply str_in_spec in Hocc. rewrite Hocc in H. simpl in H.
  now apply str_eq_spec.
Qed.

Section ComposerFacts.
Context {U : UnicodeData} {E : Environment}.

Lemma footer_split :
  footer = footer_head ++ 47%N :: (format_env USERNAME ++ py ")").
Proof. reflexivity. Qed.

(** In a reply, the only quote that occurs is the one it was built from,
    when the account handle holds no space. *)
Lemma comment_string_one_quote (q quote : pystr) :
  ~ In 32%N (format_env USERNAME) ->
  In q QUOTES -> In quote QUOTES ->
  (occurs_in q (comment_string quote) <-> q = quote).
Proof.
  intros Hh Hq Hquote. split.
  - unfold comment_string. rewrite footer_split, app_assoc. intros Hocc.
    destruct (quote_no_slash_has_space Hq) as [Hslash Hspace].
    apply occurs_in_split in Hocc as [Hl | Hr]; [| |assumption].
    + now apply quote_alone_before_footer.
    + exfalso. apply (@occurs_in_has _ _ 32%N Hr) in Hspace.
      apply in_app_or in Hspace as [Hs | Hs]; [contradiction|].
      simpl in Hs. destruct Hs as [Hs | []]. discriminate.
  - intros ->. exists [], footer. reflexivity.
Qed.

(** [random.choice] on a sequence that is not empty returns one of its
    elements and never raises. *)
Lemma random_choice_defined (seq : list pystr) (w : World) :
  seq <> [] ->
  exists x, In x seq /\ random_choice seq w = (Returned x, drew w).
Proof.
  intros Hne. unfold random_choice. destruct seq as [|y seq]; [contradiction|].
  set (l := y :: seq) in *.
  destruct (nth_error l (entropy (draws w) mod length l)) as [x|] eqn:Hx.
  - exists x. split; [eapply nth_error_In; eassumption | reflexivity].
  - exfalso. apply nth_error_None in Hx.
    assert (entropy (draws w) mod length l < length l); [|lia].
    apply Nat.mod_upper_bound. subst l. simpl. discriminate.
Qed.

Lemma random_choice_empty (w : World) :
  exists e, random_choice [] w = (Raised e, w).
Proof. eexists. reflexivity. Qed.

Lemma QUOTES_not_empty : QUOTES <> [].
Proof. discriminate. Qed.

(** What [write_comment] does in a world where QUOTES has its value: one
    draw, then one [reply], which may raise. *)
Lemma write_comment_spec (obj : item_ref) (w : World) :
  g_QUOTES w = QUOTES ->
  exists quote,
    In quote QUOTES /\
    write_comment obj w =
      platform_call (Reply obj (comment_string quote)) (drew w).
Proof.
  intros HQ. unfold write_comment, bind, get_QUOTES. rewrite HQ.
  destruct (random_choice_defined w QUOTES_not_empty) as [q [Hq Hc]].
  exists q. split; [assumption|]. now rewrite Hc.
Qed.

Lemma platform_call_calls (c : call) (w : World) :
  calls (snd (platform_call c w)) = calls w ++ [c].
Proof.
  unfold platform_call. now destruct (platform_raises (calls w) c).
Qed.

(** C6. In a world where QUOTES has its value and for an account handle
    without a space, whatever number the random source draws, the reply
    that [write_comment] sends is one of the ten quotes followed by the
    footer, the footer is the link to the account named by USERNAME, and
    no other quote of the ten occurs anywhere in the reply. *)
Theorem write_comment_one_quote_and_footer (obj : item_ref) (w : World) :
  g_QUOTES w = QUOTES ->
  ~ In 32%N (format_env USERNAME) ->
  exists quote,
    In quote QUOTES /\
    calls (snd (write_comment obj w)) =
      calls w ++ [Reply obj (quote ++ footer)] /\
    (forall q, In q QUOTES -> (occurs_in q (quote ++ footer) <-> q = quote)) /\
    footer = [10%N; 10%N] ++ py "[^(source)](https://www.reddit.com/user/"
             ++ format_env USERNAME ++ py ")" /\
    length QUOTES = 10.
Proof.
  intros HQ Hh. destruct (@write_comment_spec obj w HQ) as [quote [Hq Hw]].
  exists quote. split; [assumption|]. split; [|split; [|split]].
  - rewrite Hw, platform_call_calls. reflexivity.
  - intros q Hin. now apply comment_string_one_quote.
  - reflexivity.
  - reflexivity.
Qed.

End ComposerFacts.

Lemma write_comment_one_quote_and_footer_witness :
  exists quote,
    In quote QUOTES /\
    calls (snd (write_comment (E := sample_environment)
                  (CommentRef 1) initial_world)) =
      [Reply (CommentRef 1)
             (quote ++ footer (E := sample_environment))].
Proof.
  destruct (@write_comment_one_quote_and_footer
              sample_environment (CommentRef 1) initial_world eq_refl)
    as [quote [Hq [Hc _]]].
  - simpl. intros H. repeat (destruct H as [H|H]; [discriminate|]). exact H.
  - exists quote. split; [exact Hq | exact Hc].
Defined.

Example sample_reply :
  calls (snd (write_comment (E := sample_environment) (CommentRef 1)
                initial_world)) =
  [Reply (CommentRef 1)
     (py "The true path to wisdom is not through reason alone, but through the balance of emotion and intellect."
      ++ [10%N; 10%N]
      ++ py "[^(source)](https://www.reddit.com/user/pradon-bot)")].
Proof. vm_compute. reflexivity. Qed.

(** ** StreamWatcher *)

Lemma same_letters_lower (a b : pystr) :
  same_letters a b ->
  Forall (fun c => (c < 128)%N) a /\
  map ascii_tolower a = map ascii_tolower b.
Proof.
  induction 1 as [|x y a b [Hx [Hy Hxy]] _ [IH1 IH2]]; simpl.
  - split; [constructor | reflexivity].
  - split; [now constructor | now rewrite Hxy, IH2].
Qed.

Section WatcherFacts.
Context {U : UnicodeData} {E : Environment}.

Lemma logger_debug_silent (msg : pystr) (w : World) :
  logger_log DEBUG msg w = (Returned tt, w).
Proof. reflexivity. Qed.

Lemma logger_info_emits (msg : pystr) (w : World) :
  logger_log INFO msg w = (Returned tt, record_call (LogRecord INFO msg) w).
Proof. reflexivity. Qed.

(** The record that [restart] writes for a caught exception is emitted. *)
Lemma world_log_error_emits (msg : pystr) (w : World) :
  world_log ERROR msg w = record_call (LogRecord ERROR msg) w.
Proof. reflexivity. Qed.

Lemma marker_plain : Forall lower_fixed DONT_COMMENT_KEYWORD.
Proof.
  repeat constructor; try (intros H; discriminate H);
    intros H; exfalso; revert H; apply N.lt_nge; reflexivity.
Qed.

(** The marker as written, found in the text, is found when case is
    ignored. *)
Lemma marker_occurs_ci (text : pystr) :
  occurs_in DONT_COMMENT_KEYWORD text -> occurs_ci DONT_COMMENT_KEYWORD text.
Proof.
  intros H. unfold occurs_ci. change (lower DONT_COMMENT_KEYWORD)
    with DONT_COMMENT_KEYWORD.
  apply lower_keeps_occurrence; [apply marker_plain | assumption].
Qed.

Lemma marker_stops_comment (comment : Comment) :
  occurs_ci DONT_COMMENT_KEYWORD (comment_body comment) ->
  should_comment_on_comment comment = false.
Proof.
  intros H. apply str_in_spec in H. unfold should_comment_on_comment.
  now rewrite H.
Qed.

Lemma marker_stops_post (post : Submission) :
  occurs_ci DONT_COMMENT_KEYWORD (post_selftext post) \/
  occurs_ci DONT_COMMENT_KEYWORD (post_title post) ->
  should_comment_on_post post = false.
Proof.
  intros H. unfold should_comment_on_post.
  destruct H as [H|H]; apply str_in_spec in H; rewrite H;
    [|rewrite orb_true_r]; reflexivity.
Qed.

(** An item that the policy turns down leaves the world as it was. *)
Lemma on_comment_skipped (comment : Comment) (w : World) :
  should_comment_on_comment comment = false ->
  on_comment comment w = (Returned tt, w).
Proof.
  intros H. unfold on_comment, bind. rewrite logger_debug_silent.
  cbv zeta. rewrite H. apply logger_debug_silent.
Qed.

Lemma on_post_skipped (post : Submission) (w : World) :
  should_comment_on_post post = false ->
  on_post post w = (Returned tt, w).
Proof.
  intros H. unfold on_post, bind. rewrite logger_debug_silent.
  cbv zeta. rewrite H. apply logger_debug_silent.
Qed.

Lemma for_each_skip (A : Type) (body : A -> M unit) (x : A) (rest : list A)
      (w : World) :
  body x w = (Returned tt, w) ->
  for_each (x :: rest) body w = for_each rest body w.
Proof. intros H. simpl. unfold bind. now rewrite H. Qed.

(** C8. In the posts and comments watchers, an item on which the trigger
    policy answers false causes no call on the platform and no log record:
    the world is unchanged, the body of the loop returns, and the loop goes
    on with the next item of the stream. *)
Theorem policy_false_no_side_effect
    (comment : Comment) (post : Submission)
    (next_comments : list Comment) (next_posts : list Submission)
    (w : World) :
  (should_comment_on_comment comment = false ->
   on_comment comment w = (Returned tt, w) /\
   for_each (comment :: next_comments) on_comment w =
   for_each next_comments on_comment w) /\
  (should_comment_on_post post = false ->
   on_post post w = (Returned tt, w) /\
   for_each (post :: next_posts) on_post w =
   for_each next_posts on_post w).
Proof.
  split; intros H.
  - pose proof (on_comment_skipped comment w H) as Hs.
    split; [exact Hs | now apply for_each_skip].
  - pose proof (on_post_skipped post w H) as Hs.
    split; [exact Hs | now apply for_each_skip].
Qed.

Lemma on_mention_not_eligible (message : InboxItem) (w : World) :
  ~ mention_eligible message -> on_mention message w = (Returned tt, w).
Proof.
  intros Hn. unfold on_mention. cbv zeta.
  destruct (str_eq _ _ && item_is_comment message) eqn:Hc; [|reflexivity].
  exfalso. apply Hn. apply andb_true_iff in Hc as [Hs Hi].
  split; [now apply str_eq_spec | assumption].
Qed.

(** An eligible item: one draw, the reply, and when the reply went
    through, the log record and [mark_read]. *)
Lemma on_mention_eligible (message : InboxItem) (w : World) :
  mention_eligible message -> g_QUOTES w = QUOTES ->
  exists quote,
    In quote QUOTES /\
    on_mention message w =
      let target := CommentRef (item_id message) in
      let reply := Reply target (comment_string quote) in
      match platform_raises (calls w) reply with
      | Some e => (Raised e, record_call reply (drew w))
      | None =>
          platform_call (MarkRead target)
            (record_call
               (LogRecord INFO
                  (py "Added comment to message: " ++ item_body message))
               (record_call reply (drew w)))
      end.
Proof.
  intros [Hs Hi] HQ. unfold on_mention. cbv zeta.
  apply str_eq_spec in Hs. rewrite Hs, Hi. cbn [andb].
  destruct (@write_comment_spec E (CommentRef (item_id message)) w HQ)
    as [quote [Hq Hw]].
  exists quote. split; [assumption|]. unfold bind at 1. rewrite Hw.
  unfold platform_call at 1. cbn [calls drew].
  destruct (platform_raises (calls w) _); [reflexivity|].
  unfold bind. rewrite logger_info_emits. reflexivity.
Qed.

(** Any way of casing the letters of "Username Mention" normalizes to the
    subject that the watcher compares with. *)
Lemma subject_any_case (subject : pystr) :
  same_letters subject (py "Username Mention") ->
  standardize_text subject = py "username mention".
Proof.
  intros H. apply same_letters_lower in H as [Ha Hm].
  rewrite standardize_text_spec. unfold spec_normalize, lower.
  rewrite do_lower_ascii, Hm by assumption. reflexivity.
Qed.

End WatcherFacts.

Section MentionFacts.
Context {U : UnicodeData} {E : Environment}.

(** One item of the inbox, in a world where QUOTES has its value.  When the
    normalized subject is "username
    mention" and the item is a comment, it sends the reply; when the reply
    goes through it logs and then marks the item read, in that order, and
    when the reply raises the item is not marked read.  Any other item, a
    keyword in its text or not, causes no call at all.  Every casing of
    "Username Mention" is a subject that qualifies. *)
Theorem mention_replied_and_marked_read_iff (message : InboxItem) (w : World) :
  g_QUOTES w = QUOTES ->
  (mention_eligible message ->
   exists quote,
     In quote QUOTES /\
     (platform_raises (calls w)
        (Reply (CommentRef (item_id message)) (comment_string quote)) = None ->
      calls (snd (on_mention message w)) =
        calls w ++
        [Reply (CommentRef (item_id message)) (comment_string quote);
         LogRecord INFO (py "Added comment to message: " ++ item_body message);
         MarkRead (CommentRef (item_id message))]) /\
     (forall e,
        platform_raises (calls w)
          (Reply (CommentRef (item_id message)) (comment_string quote)) = Some e ->
        on_mention message w =
          (Raised e,
           record_call
             (Reply (CommentRef (item_id message)) (comment_string quote))
             (drew w)))) /\
  (~ mention_eligible message -> on_mention message w = (Returned tt, w)) /\
  (forall subject,
     same_letters subject (py "Username Mention") ->
     standardize_text subject = py "username mention").
Proof.
  intros HQ. split; [|split].
  - intros He. destruct (on_mention_eligible w He HQ) as [quote [Hq Hm]].
    exists quote. split; [assumption|]. cbv zeta in Hm. split.
    + intros Hok. rewrite Hm, Hok, platform_call_calls. simpl.
      rewrite <- !app_assoc. reflexivity.
    + intros e He'. now rewrite Hm, He'.
  - apply on_mention_not_eligible.
  - apply subject_any_case.
Qed.

(** C3, as the code has it.  In the comments and posts watchers the marker
    suppresses the reply: when it occurs in the body of a comment, or in
    the selftext or the title of a post, as written or in another letter
    case, the item causes no call at all.  The mentions watcher does not
    look for the marker: in a world where QUOTES has its value it sends a
    reply to every eligible item, whatever the body of the item holds. *)
Theorem opt_out_suppresses_posts_and_comments
    (comment : Comment) (post : Submission) (message : InboxItem) (w : World) :
  (occurs_in DONT_COMMENT_KEYWORD (comment_body comment) \/
   occurs_ci DONT_COMMENT_KEYWORD (comment_body comment) ->
   on_comment comment w = (Returned tt, w)) /\
  (occurs_in DONT_COMMENT_KEYWORD (post_selftext post) \/
   occurs_in DONT_COMMENT_KEYWORD (post_title post) \/
   occurs_ci DONT_COMMENT_KEYWORD (post_selftext post) \/
   occurs_ci DONT_COMMENT_KEYWORD (post_title post) ->
   on_post post w = (Returned tt, w)) /\
  (mention_eligible message -> g_QUOTES w = QUOTES ->
   exists quote rest,
     In quote QUOTES /\
     calls (snd (on_mention message w)) =
       calls w ++
       Reply (CommentRef (item_id message)) (comment_string quote) :: rest).
Proof.
  split; [|split].
  - intros H. apply on_comment_skipped, marker_stops_comment.
    destruct H as [H|H]; [now apply marker_occurs_ci | assumption].
  - intros H. apply on_post_skipped, marker_stops_post.
    destruct H as [H|[H|[H|H]]];
      [left; now apply marker_occurs_ci | right; now apply marker_occurs_ci
      | now left | now right].
  - intros He HQ. destruct (on_mention_eligible w He HQ) as [quote [Hq Hm]].
    cbv zeta in Hm. exists quote.
    destruct (platform_raises (calls w) _) as [e|] eqn:Hp.
    + exists []. split; [assumption|]. now rewrite Hm.
    + eexists. split; [assumption|].
      rewrite Hm, platform_call_calls. simpl. rewrite <- !app_assoc.
      reflexivity.
Qed.

End MentionFacts.

Lemma sample_mention_eligible :
  mention_eligible (U := unicode_fragment) sample_mention.
Proof. split; reflexivity. Qed.

Lemma mention_replied_and_marked_read_iff_witness :
  exists quote,
    In quote QUOTES /\
    calls (snd (on_mention (U := unicode_fragment) (E := sample_environment)
                  sample_mention initial_world)) =
    [Reply (CommentRef 7) (comment_string (E := sample_environment) quote);
     LogRecord INFO (py "Added comment to message: u/pradon-bot what is life?");
     MarkRead (CommentRef 7)].
Proof.
  destruct (@mention_replied_and_marked_read_iff unicode_fragment
              sample_environment sample_mention initial_world eq_refl)
    as [H _].
  destruct (H sample_mention_eligible) as [quote [Hq [Hok _]]].
  exists quote. split; [exact Hq | exact (Hok eq_refl)].
Defined.

(** The claim C3 as stated fails on the mentions watcher: the body of this
    username mention begins with the marker, and the watcher replies. *)
Lemma marked_mention_is_replied_to :
  occurs_in DONT_COMMENT_KEYWORD (item_body marked_mention) /\
  calls (snd (on_mention (U := unicode_fragment) (E := sample_environment)
                marked_mention initial_world)) =
  [Reply (CommentRef 9)
     (py "The true path to wisdom is not through reason alone, but through the balance of emotion and intellect."
      ++ [10%N; 10%N]
      ++ py "[^(source)](https://www.reddit.com/user/pradon-bot)");
   LogRecord INFO (py "Added comment to message: !nopost u/pradon-bot");
   MarkRead (CommentRef 9)].
Proof.
  split.
  - exists [], (py " u/pradon-bot"). reflexivity.
  - vm_compute. reflexivity.
Qed.

Lemma opt_out_suppresses_posts_and_comments_witness :
  on_comment (U := unicode_fragment) (E := sample_environment)
    marked_comment initial_world = (Returned tt, initial_world).
Proof.
  destruct (@opt_out_suppresses_posts_and_comments unicode_fragment
              sample_environment marked_comment sample_post marked_mention
              initial_world) as [H _].
  apply H. right. apply str_in_spec. vm_compute. reflexivity.
Defined.

Lemma policy_false_no_side_effect_witness :
  on_comment (U := unicode_fragment) (E := sample_environment)
    plain_comment initial_world = (Returned tt, initial_world).
Proof.
  destruct (@policy_false_no_side_effect unicode_fragment sample_environment
              plain_comment sample_post [] [] initial_world) as [H _].
  apply H. vm_compute. reflexivity.
Defined.

(** ** SupervisedRunner *)

Section RestartFacts.
Variables State Args : Type.
Variable handler : Args -> State -> outcome unit * State.
Variable log : log_level -> pystr -> State -> State.
Variable repr_args : Args -> pystr.

Lemma while_true_step (fuel : nat) (args : Args) (st : State)
      (seen : list Args) :
  while_true handler log (S fuel) args st seen =
  match handler args st with
  | (Returned _, st') => while_true handler log fuel args st' (seen ++ [args])
  | (Raised e, st') =>
      if isinstance_Exception e then
        while_true handler log fuel args
          (log ERROR (py "Exception: " ++ exception_str e) st')
          (seen ++ [args])
      else
        {| status := Propagated e; invoked := seen ++ [args]; final := st' |}
  end.
Proof. reflexivity. Qed.

(** After [fuel] iterations: the handler was called with [args] each time;
    the loop is still running unless an exception outside Exception went
    through, which takes one call at least. *)
Lemma while_true_invoked (fuel : nat) (args : Args) (st : State)
      (seen : list Args) :
  exists k,
    k <= fuel /\
    invoked (while_true handler log fuel args st seen) = seen ++ repeat args k /\
    (status (while_true handler log fuel args st seen) = Looping -> k = fuel) /\
    (forall e, status (while_true handler log fuel args st seen) = Propagated e ->
               isinstance_Exception e = false /\ 1 <= k).
Proof.
  revert st seen; induction fuel as [|fuel IH]; intros st seen.
  - exists 0. cbn. rewrite app_nil_r.
    split; [lia|]. split; [reflexivity|]. split; [reflexivity|].
    intros e H. discriminate H.
  - rewrite while_true_step.
    assert (Hnext : forall st1,
      exists k, k <= S fuel /\
        invoked (while_true handler log fuel args st1 (seen ++ [args]))
          = seen ++ repeat args k /\
        (status (while_true handler log fuel args st1 (seen ++ [args]))
           = Looping -> k = S fuel) /\
        (forall e, status (while_true handler log fuel args st1 (seen ++ [args]))
                   = Propagated e -> isinstance_Exception e = false /\ 1 <= k)).
    { intros st1. destruct (IH st1 (seen ++ [args])) as [k [Hk [Hi [Hl Hp]]]].
      exists (S k). rewrite Hi, <- app_assoc.
      split; [lia|]. split; [reflexivity|]. split.
      - intros H. now rewrite (Hl H).
      - intros e H. destruct (Hp e H). split; [assumption | lia]. }
    destruct (handler args st) as [[[]|e] st']; [apply Hnext|].
    destruct (isinstance_Exception e) eqn:He; [apply Hnext|].
    exists 1. cbn.
    split; [lia|]. split; [reflexivity|]. split; [discriminate|].
    intros e' H. injection H as <-. split; [assumption | lia].
Qed.

Lemma while_true_caught (n fuel : nat) (args : Args) (st : State)
      (seen : list Args) :
  caught_first handler log n args st -> n < fuel ->
  length seen + n + 1 <= length (invoked (while_true handler log fuel args st seen)).
Proof.
  revert fuel st seen; induction n as [|n IH]; intros fuel st seen Hc Hf.
  - destruct (while_true_invoked fuel args st seen) as [k [Hk [Hi [Hl Hp]]]].
    rewrite Hi, length_app, repeat_length.
    destruct (status (while_true handler log fuel args st seen)) as [|e] eqn:Hs.
    + specialize (Hl eq_refl). lia.
    + destruct (Hp e eq_refl). lia.
  - destruct fuel as [|fuel]; [lia|].
    destruct Hc as [e [st' [Hh [He Hc]]]].
    rewrite while_true_step, Hh, He.
    assert (Hf' : n < fuel) by lia.
    specialize (IH fuel _ (seen ++ [args]) Hc Hf').
    rewrite length_app in IH. cbn [length] in IH. lia.
Qed.

Lemma while_true_never_leaves (fuel : nat) (args : Args) (st : State)
      (seen : list Args) :
  (forall st1 e st2, handler args st1 = (Raised e, st2) ->
                     isinstance_Exception e = true) ->
  status (while_true handler log fuel args st seen) = Looping.
Proof.
  intros Hall. revert st seen; induction fuel as [|fuel IH]; intros st seen;
    [reflexivity|].
  rewrite while_true_step.
  destruct (handler args st) as [[[]|e] st'] eqn:Hh; [apply IH|].
  rewrite (Hall _ _ _ Hh). apply IH.
Qed.

(** What holds of the state before the loop and is kept by the handler and
    by the logger, holds after any number of iterations. *)
Lemma while_true_invariant (I : State -> Prop) (fuel : nat) (args : Args)
      (st : State) (seen : list Args) :
  (forall a s, I s -> I (snd (handler a s))) ->
  (forall l m s, I s -> I (log l m s)) ->
  I st -> I (final (while_true handler log fuel args st seen)).
Proof.
  intros Hh Hl. revert st seen; induction fuel as [|fuel IH];
    intros st seen Hst; [assumption|].
  rewrite while_true_step.
  pose proof (Hh args st Hst) as Hn.
  destruct (handler args st) as [[[]|e] st']; cbn [snd] in Hn.
  - now apply IH.
  - destruct (isinstance_Exception e); [|assumption].
    apply IH. now apply Hl.
Qed.

(** C2, as the code has it.  The wrapper built by [restart] catches the
    exceptions that are instances of Exception: it logs each and calls the
    handler again at once, with the same arguments.  If the handler raises
    such an exception on each of its first [N] calls, the wrapper has
    called it [N + 1] times at least after [N + 1] iterations.  The loop
    never returns: it is left only by an exception that is no instance of
    Exception (KeyboardInterrupt, SystemExit, GeneratorExit), which goes to
    the caller; when the handler raises none of these the loop runs on for
    ever. *)
Theorem restart_catches_and_reinvokes
    (N fuel : nat) (args : Args) (st : State) :
  caught_first handler log N args
    (log INFO (py "Starting thread with: " ++ repr_args args) st) ->
  N < fuel ->
  N + 1 <= length (invoked (restart handler log repr_args fuel args st)) /\
  Forall (eq args) (invoked (restart handler log repr_args fuel args st)) /\
  (status (restart handler log repr_args fuel args st) = Looping ->
   length (invoked (restart handler log repr_args fuel args st)) = fuel) /\
  (forall e,
     status (restart handler log repr_args fuel args st) = Propagated e ->
     isinstance_Exception e = false) /\
  ((forall st1 e st2, handler args st1 = (Raised e, st2) ->
                      isinstance_Exception e = true) ->
   forall n, status (restart handler log repr_args n args st) = Looping) /\
  (forall n st1 e st2 seen,
     handler args st1 = (Raised e, st2) ->
     while_true handler log (S n) args st1 seen =
     if isinstance_Exception e
     then while_true handler log n args
            (log ERROR (py "Exception: " ++ exception_str e) st2)
            (seen ++ [args])
     else {| status := Propagated e; invoked := seen ++ [args];
             final := st2 |}).
Proof.
  intros Hc Hf. unfold restart, wrapped_handler.
  set (st0 := log INFO (py "Starting thread with: " ++ repr_args args) st) in *.
  destruct (while_true_invoked fuel args st0 []) as [k [Hk [Hi [Hl Hp]]]].
  split; [|split; [|split; [|split; [|split]]]].
  - pose proof (@while_true_caught N fuel args st0 [] Hc Hf) as H.
    cbn [length] in H. lia.
  - rewrite Hi. cbn [app]. apply Forall_forall. intros a Ha.
    now apply repeat_spec in Ha.
  - intros Hs. rewrite Hi. cbn [app]. rewrite repeat_length. now apply Hl.
  - intros e Hs. now apply Hp.
  - intros Hall n. now apply while_true_never_leaves.
  - intros n st1 e st2 seen Hh. rewrite while_true_step, Hh. reflexivity.
Qed.

End RestartFacts.

Lemma restart_catches_and_reinvokes_witness :
  4 <= length (invoked (restart flaky_handler list_log repr_unit
                          5 tt (0, []))) /\
  status (restart flaky_handler list_log repr_unit 5 tt (0, []))
  = Looping.
Proof.
  assert (Hc : caught_first flaky_handler list_log 3 tt
                 (list_log INFO (py "Starting thread with: " ++ repr_unit tt)
                    (0, []))).
  { cbn [caught_first].
    do 3 (do 2 eexists; split; [reflexivity|]; split; [reflexivity|]).
    exact I. }
  assert (Hf : 3 < 5) by lia.
  destruct (@restart_catches_and_reinvokes _ _ flaky_handler list_log
              repr_unit 3 5 tt (0, []) Hc Hf) as [H1 _].
  split; [exact H1 | vm_compute; reflexivity].
Defined.

(** The claim C2 as stated fails: this handler raises on its first call, the
    wrapper calls it once and not twice, and the exception reaches the
    caller of the wrapper. *)
Lemma SystemExit_propagates :
  fst (exiting_handler tt (0, [])) = Raised SystemExit /\
  status (restart exiting_handler list_log repr_unit 2 tt (0, []))
  = Propagated SystemExit /\
  invoked (restart exiting_handler list_log repr_unit 2 tt (0, []))
  = [tt].
Proof. repeat split. Qed.

(** ** QuoteSet *)

Create HintDb keeps.

Section QuoteSetFacts.
Context {U : UnicodeData} {E : Environment}.

Lemma keeps_ret (A : Type) (a : A) : keeps_QUOTES (ret a).
Proof. intros w. reflexivity. Qed.

Lemma keeps_raise (A : Type) (e : py_exception) : keeps_QUOTES (@raise A e).
Proof. intros w. reflexivity. Qed.

Lemma keeps_bind (A B : Type) (m : M A) (k : A -> M B) :
  keeps_QUOTES m -> (forall a, keeps_QUOTES (k a)) -> keeps_QUOTES (bind m k).
Proof.
  intros Hm Hk w. unfold bind. specialize (Hm w).
  destruct (m w) as [[a|e] w']; cbn [snd] in *; [|assumption].
  now rewrite Hk.
Qed.

Lemma keeps_emit (c : call) : keeps_QUOTES (emit c).
Proof. intros w. reflexivity. Qed.

Lemma keeps_logger_log (l : log_level) (msg : pystr) :
  keeps_QUOTES (logger_log l msg).
Proof.
  unfold logger_log. destruct (isEnabledFor l);
    [apply keeps_emit | apply keeps_ret].
Qed.

Lemma keeps_get_QUOTES : keeps_QUOTES get_QUOTES.
Proof. intros w. reflexivity. Qed.

Lemma keeps_random_choice (seq : list pystr) : keeps_QUOTES (random_choice seq).
Proof.
  intros w. unfold random_choice. destruct seq as [|x seq]; [reflexivity|].
  now destruct (nth_error _ _).
Qed.

Lemma keeps_platform_call (c : call) : keeps_QUOTES (platform_call c).
Proof.
  intros w. unfold platform_call. now destruct (platform_raises _ _).
Qed.

Lemma keeps_open_stream (A : Type) (stream : nat -> Feed A) :
  keeps_QUOTES (open_stream stream).
Proof. intros w. reflexivity. Qed.

#[local] Hint Resolve keeps_ret keeps_raise keeps_emit keeps_logger_log
  keeps_get_QUOTES keeps_random_choice keeps_platform_call keeps_open_stream
  : keeps.

(** A sequence of computations keeps QUOTES when each of them does. *)
Ltac keeps_steps :=
  repeat (apply keeps_bind; [|intro]); auto with keeps.

Lemma keeps_write_comment (obj : item_ref) : keeps_QUOTES (write_comment obj).
Proof. unfold write_comment. keeps_steps. Qed.

#[local] Hint Resolve keeps_write_comment : keeps.

Lemma keeps_on_comment (comment : Comment) : keeps_QUOTES (on_comment comment).
Proof.
  unfold on_comment. apply keeps_bind; [auto with keeps | intros _].
  cbv zeta. destruct (should_comment_on_comment comment); keeps_steps.
Qed.

Lemma keeps_on_post (post : Submission) : keeps_QUOTES (on_post post).
Proof.
  unfold on_post. apply keeps_bind; [auto with keeps | intros _].
  cbv zeta. destruct (should_comment_on_post post); keeps_steps.
Qed.

Lemma keeps_on_mention (message : InboxItem) :
  keeps_QUOTES (on_mention message).
Proof.
  unfold on_mention. cbv zeta. destruct (_ && _); keeps_steps.
Qed.

Lemma keeps_for_each (A : Type) (body : A -> M unit) (items : list A) :
  (forall x, keeps_QUOTES (body x)) -> keeps_QUOTES (for_each items body).
Proof.
  intros Hb. induction items as [|x items IH]; simpl; [apply keeps_ret|].
  apply keeps_bind; [apply Hb | intros _; apply IH].
Qed.

Lemma keeps_consume (A : Type) (feed : Feed A) (body : A -> M unit) :
  (forall x, keeps_QUOTES (body x)) -> keeps_QUOTES (consume feed body).
Proof.
  intros Hb. unfold consume.
  apply keeps_bind; [now apply keeps_for_each | intros _].
  destruct (ending feed); [apply keeps_raise | apply keeps_ret].
Qed.

Lemma keeps_handlers (name : pystr) :
  keeps_QUOTES (iterate_comments_handler name) /\
  keeps_QUOTES (iterate_posts_handler name) /\
  keeps_QUOTES (listen_and_process_mentions_handler tt).
Proof.
  repeat split;
    (apply keeps_bind; [apply keeps_open_stream | intros feed];
     apply keeps_consume; intros x);
    [apply keeps_on_comment | apply keeps_on_post | apply keeps_on_mention].
Qed.

Lemma world_log_keeps (l : log_level) (msg : pystr) (w : World) :
  g_QUOTES (world_log l msg w) = g_QUOTES w.
Proof. apply keeps_logger_log. Qed.

(** No operation of the program rebinds or changes QUOTES. *)
Lemma run_operation_keeps (op : operation) (w : World) :
  g_QUOTES (run_operation op w) = g_QUOTES w.
Proof.
  destruct op as [fuel name|fuel name|fuel| | | |]; cbn [run_operation];
    try apply keeps_on_comment; try apply keeps_on_post;
    try apply keeps_on_mention; try apply keeps_write_comment.
  - unfold iterate_comments, restart, wrapped_handler.
    apply (@while_true_invariant _ _ _ _ (fun s => g_QUOTES s = g_QUOTES w)).
    + intros a s Hs. rewrite <- Hs. apply (proj1 (keeps_handlers a)).
    + intros l m s Hs. now rewrite world_log_keeps.
    + apply world_log_keeps.
  - unfold iterate_posts, restart, wrapped_handler.
    apply (@while_true_invariant _ _ _ _ (fun s => g_QUOTES s = g_QUOTES w)).
    + intros a s Hs. rewrite <- Hs. apply (proj1 (proj2 (keeps_handlers a))).
    + intros l m s Hs. now rewrite world_log_keeps.
    + apply world_log_keeps.
  - unfold listen_and_process_mentions, restart, wrapped_handler.
    apply (@while_true_invariant _ _ _ _ (fun s => g_QUOTES s = g_QUOTES w)).
    + intros [] s Hs. rewrite <- Hs.
      apply (proj2 (proj2 (keeps_handlers []))).
    + intros l m s Hs. now rewrite world_log_keeps.
    + apply world_log_keeps.
Qed.

Lemma run_all_keeps (ops : list operation) (w : World) :
  g_QUOTES (run_all ops w) = g_QUOTES w.
Proof.
  revert w; induction ops as [|op ops IH]; intros w; [reflexivity|].
  unfold run_all in *. simpl. rewrite IH. apply run_operation_keeps.
Qed.

(** C9. QUOTES is a sequence of ten strings, none twice.  No operation of
    the program changes it: after any sequence of operations of the three
    threads, started from the initial state, the global holds the same ten
    strings in the same order.  So the draw of [write_comment] is defined
    in every state the program reaches: [random.choice] returns one of the
    quotes and does not raise. *)
Theorem QUOTES_fixed_and_choice_defined (ops : list operation) :
  length QUOTES = 10 /\
  NoDup QUOTES /\
  g_QUOTES (run_all ops initial_world) = QUOTES /\
  (forall op w, g_QUOTES (run_operation op w) = g_QUOTES w) /\
  exists quote,
    In quote QUOTES /\
    random_choice (g_QUOTES (run_all ops initial_world))
                  (run_all ops initial_world)
    = (Returned quote, drew (run_all ops initial_world)).
Proof.
  assert (HQ : g_QUOTES (run_all ops initial_world) = QUOTES)
    by apply run_all_keeps.
  split; [reflexivity|]. split; [|split; [exact HQ|split]].
  - repeat (constructor;
            [intros H; repeat (destruct H as [H|H]; [discriminate H|]);
             exact H|]).
    constructor.
  - apply run_operation_keeps.
  - rewrite HQ. apply random_choice_defined, QUOTES_not_empty.
Qed.

End QuoteSetFacts.

(* ================================================================== *)
(** * Further properties *)

(** ** TextNormalizer on ASCII text *)

Lemma punctuation_ascii_plain (c : code_point) :
  is_punctuation c = true -> (c < 128)%N /\ ascii_tolower c = c.
Proof.
  intros Hp. apply is_punctuation_ranges in Hp. split; [lia|].
  unfold ascii_tolower. destruct (is_ascii_upper c) eqn:Hu; [|reflexivity].
  apply is_ascii_upper_spec in Hu. lia.
Qed.

Lemma remove_punctuation_all (p : pystr) :
  Forall (fun c => In c punctuation) p ->
  remove_punctuation (map ascii_tolower p) = [].
Proof.
  induction 1 as [|c p Hc _ IH]; simpl; [reflexivity|].
  apply is_punctuation_spec in Hc.
  destruct (@punctuation_ascii_plain c Hc) as [_ ->]. now rewrite Hc.
Qed.

Section AsciiFacts.
Context {U : UnicodeData}.

Lemma standardize_text_ascii (text : pystr) :
  Forall (fun c => (c < 128)%N) text ->
  standardize_text text = remove_punctuation (map ascii_tolower text).
Proof.
  intros H. rewrite standardize_text_spec. unfold spec_normalize, lower.
  now rewrite do_lower_ascii.
Qed.

Lemma lower_same_letters (a b : pystr) :
  same_letters a b -> lower a = lower b.
Proof.
  intros H. assert (Hb : Forall (fun c => (c < 128)%N) b).
  { induction H as [|x y a b [_ [Hy _]] _ IH]; constructor; assumption. }
  apply same_letters_lower in H as [Ha Hm]. unfold lower.
  now rewrite !do_lower_ascii, Hm.
Qed.

(** X1. On ASCII text the normalizer works piece by piece: the normal form
    of a concatenation is the concatenation of the normal forms, a run of
    punctuation put between two pieces leaves no trace, two texts that
    differ in the case of their letters only have one normal form, and the
    normal form is never longer than the text. *)
Theorem standardize_text_ascii_piecewise (a b : pystr) :
  Forall (fun c => (c < 128)%N) a ->
  Forall (fun c => (c < 128)%N) b ->
  standardize_text (a ++ b) = standardize_text a ++ standardize_text b /\
  (forall p, Forall (fun c => In c punctuation) p ->
             standardize_text (a ++ p ++ b) = standardize_text (a ++ b)) /\
  (forall a', same_letters a a' -> standardize_text a = standardize_text a') /\
  length (standardize_text a) <= length a.
Proof.
  intros Ha Hb.
  assert (Hab : Forall (fun c => (c < 128)%N) (a ++ b))
    by (apply Forall_app; now split).
  split; [|split; [|split]].
  - rewrite !standardize_text_ascii by assumption.
    now rewrite map_app, remove_punctuation_app.
  - intros p Hp.
    assert (Hpa : Forall (fun c => (c < 128)%N) p).
    { eapply Forall_impl; [|exact Hp]. intros c Hc.
      apply is_punctuation_spec in Hc.
      now destruct (@punctuation_ascii_plain c Hc). }
    rewrite !standardize_text_ascii;
      try assumption; [|repeat (apply Forall_app; split); assumption].
    rewrite !map_app, !remove_punctuation_app.
    now rewrite (remove_punctuation_all Hp).
  - intros a' Hs. unfold standardize_text. now rewrite (lower_same_letters Hs).
  - rewrite standardize_text_ascii by assumption.
    unfold remove_punctuation.
    etransitivity; [apply filter_length_le|]. now rewrite length_map.
Qed.

End AsciiFacts.

Lemma standardize_text_ascii_piecewise_witness :
  standardize_text (U := unicode_fragment) (py "Hello, " ++ py "World!") =
  py "hello " ++ py "world".
Proof.
  assert (Ha : Forall (fun c => (c < 128)%N) (py "Hello, "))
    by (repeat constructor).
  assert (Hb : Forall (fun c => (c < 128)%N) (py "World!"))
    by (repeat constructor).
  destruct (@standardize_text_ascii_piecewise unicode_fragment _ _ Ha Hb)
    as [H _].
  rewrite H. reflexivity.
Defined.

(** ** TriggerPolicy: case, fields and the bot's own replies *)

Lemma for_keyword_ext (ks : list pystr) (f g : pystr -> bool) :
  (forall k, f k = g k) -> for_keyword ks f = for_keyword ks g.
Proof.
  intros H. induction ks as [|k ks IH]; simpl; [reflexivity|].
  now rewrite H, IH.
Qed.

Lemma for_keyword_orb (ks : list pystr) (f g : pystr -> bool) :
  for_keyword ks (fun k => f k || g k) = for_keyword ks f || for_keyword ks g.
Proof.
  induction ks as [|k ks IH]; simpl; [reflexivity|].
  rewrite IH. destruct (f k), (g k); simpl; try reflexivity.
  now rewrite orb_true_r.
Qed.

Section PolicyShape.
Context {U : UnicodeData} {E : Environment}.

(** X2. The trigger policy sees a text through its lowercase form only, and
    does not see the identity of the item: two comments whose bodies have
    the same [str.lower], whatever characters they hold, get the same
    answer, and so do two posts whose selftexts have the same [str.lower]
    and whose titles have the same [str.lower].  Two ASCII texts that differ
    in the case of their letters only are such texts. *)
Theorem policy_ignores_letter_case (c1 c2 : Comment) (p1 p2 : Submission) :
  lower (comment_body c1) = lower (comment_body c2) ->
  lower (post_selftext p1) = lower (post_selftext p2) ->
  lower (post_title p1) = lower (post_title p2) ->
  should_comment_on_comment c1 = should_comment_on_comment c2 /\
  should_comment_on_post p1 = should_comment_on_post p2 /\
  (forall a b, same_letters a b -> lower a = lower b).
Proof.
  intros Hb Hs Ht.
  unfold should_comment_on_comment, should_comment_on_post, standardize_text.
  rewrite Hb, Hs, Ht. repeat split. intros a b. apply lower_same_letters.
Qed.

(** X3. The policy of posts in terms of the policy of comments: a post
    triggers exactly when the marker is in neither of its two fields and one
    of the fields, taken as the body of a comment, triggers.  The two fields
    play the same part: exchanging selftext and title does not change the
    answer. *)
Theorem post_policy_from_comment_policy (post : Submission) (id1 id2 : N) :
  should_comment_on_post post =
    negb (str_in (lower DONT_COMMENT_KEYWORD) (lower (post_selftext post))
          || str_in (lower DONT_COMMENT_KEYWORD) (lower (post_title post)))
    && (should_comment_on_comment
          {| comment_id := id1; comment_body := post_selftext post |}
        || should_comment_on_comment
             {| comment_id := id2; comment_body := post_title post |}) /\
  should_comment_on_post post =
  should_comment_on_post
    {| post_id := post_id post; post_selftext := post_title post;
       post_title := post_selftext post |}.
Proof.
  unfold should_comment_on_post, should_comment_on_comment. cbn [comment_body
    post_selftext post_title]. split.
  - rewrite for_keyword_orb.
    destruct (str_in _ (lower (post_selftext post)));
      destruct (str_in _ (lower (post_title post))); reflexivity.
  - rewrite (orb_comm (str_in _ (lower (post_selftext post)))).
    destruct (_ || _); [reflexivity|].
    apply for_keyword_ext. intros k. apply orb_comm.
Qed.

Lemma ascii_tolower_bang (c : code_point) :
  ascii_tolower c = 33%N -> c = 33%N.
Proof.
  unfold ascii_tolower. destruct (is_ascii_upper c) eqn:Hu; [|auto].
  apply is_ascii_upper_spec in Hu. lia.
Qed.

Lemma quotes_ascii_no_bang :
  Forall (Forall (fun c => (c < 128)%N /\ c <> 33%N)) QUOTES.
Proof.
  repeat (constructor; [repeat (constructor; [split; [reflexivity|discriminate]|]);
                        constructor|]).
  constructor.
Qed.

Section OwnReplies.
Hypothesis keyword_iter_perm : Permutation keyword_iter KEYWORDS.
Hypothesis handle_ascii :
  Forall (fun c => (c < 128)%N /\ c <> 33%N) (format_env USERNAME).

Lemma comment_string_ascii_no_bang (quote : pystr) :
  In quote QUOTES ->
  Forall (fun c => (c < 128)%N /\ c <> 33%N) (comment_string quote).
Proof.
  intros Hq. unfold comment_string, footer.
  pose proof quotes_ascii_no_bang as HQ. rewrite Forall_forall in HQ.
  repeat (apply Forall_app; split); try assumption; try (now apply HQ);
    repeat (constructor; [split; [reflexivity|discriminate]|]); constructor.
Qed.

(** X4. The policy does not set the bot's own replies apart.  With a handle
    of ASCII characters other than the exclamation mark, a reply built by
    [write_comment] from a quote that is written with a keyword triggers the
    policy of comments when it comes back as a comment; seven of the ten
    quotes are written with a keyword. *)
Theorem own_reply_triggers_policy (id : N) (quote : pystr) :
  In quote QUOTES ->
  quote_has_keyword quote = true ->
  should_comment_on_comment
    {| comment_id := id; comment_body := comment_string quote |} = true /\
  length (filter quote_has_keyword QUOTES) = 7.
Proof.
  intros Hq Hk. split; [|reflexivity].
  pose proof (comment_string_ascii_no_bang Hq) as Hascii.
  assert (Hlt : Forall (fun c => (c < 128)%N) (comment_string quote)).
  { eapply Forall_impl; [|exact Hascii]. now intros c [H _]. }
  apply (should_comment_on_comment_spec keyword_iter_perm).
  cbn [comment_body]. split.
  - unfold occurs_ci. intros Hocc.
    apply (@occurs_in_has _ _ 33%N) in Hocc; [|now left].
    unfold lower in Hocc. rewrite do_lower_ascii in Hocc by assumption.
    apply in_map_iff in Hocc as [c [Hc Hin]].
    apply ascii_tolower_bang in Hc. subst c.
    rewrite Forall_forall in Hascii. now destruct (Hascii _ Hin).
  - unfold quote_has_keyword in Hk.
    apply existsb_exists in Hk as [k [Hin Hk]].
    exists k. split; [assumption|]. apply str_in_spec in Hk.
    rewrite standardize_text_ascii by assumption.
    apply remove_punctuation_keeps_occurrence; [now apply keyword_plain|].
    unfold comment_string. rewrite map_app. apply occurs_in_app. now left.
Qed.

End OwnReplies.
End PolicyShape.

Lemma policy_ignores_letter_case_witness :
  should_comment_on_comment (U := unicode_fragment) (E := sample_environment)
    {| comment_id := 5;
       comment_body := py "REALITY in a CAF" ++ [0xC9%N] |} =
  should_comment_on_comment (U := unicode_fragment) (E := sample_environment)
    {| comment_id := 1;
       comment_body := py "Reality in a caf" ++ [0xE9%N] |}.
Proof.
  assert (Hb : lower (U := unicode_fragment) (py "REALITY in a CAF" ++ [0xC9%N])
               = lower (U := unicode_fragment)
                   (py "Reality in a caf" ++ [0xE9%N]))
    by (vm_compute; reflexivity).
  exact (proj1 (@policy_ignores_letter_case unicode_fragment
                  sample_environment
                  {| comment_id := 5;
                     comment_body := py "REALITY in a CAF" ++ [0xC9%N] |}
                  {| comment_id := 1;
                     comment_body := py "Reality in a caf" ++ [0xE9%N] |}
                  sample_post sample_post Hb eq_refl eq_refl)).
Defined.

Lemma own_reply_triggers_policy_witness :
  should_comment_on_comment (U := unicode_fragment) (E := sample_environment)
    {| comment_id := 8;
       comment_body :=
         comment_string (E := sample_environment)
           (py "Freedom is not given to us, it is something we must claim for ourselves.") |}
  = true.
Proof.
  assert (Hh : Forall (fun c => (c < 128)%N /\ c <> 33%N)
                 (format_env (USERNAME (Environment := sample_environment)))).
  { repeat (constructor; [split; [reflexivity|discriminate]|]). constructor. }
  refine (proj1 (@own_reply_triggers_policy unicode_fragment
                   sample_environment sample_environment_perm Hh 8 _ _ _)).
  - simpl. tauto.
  - vm_compute. reflexivity.
Defined.

(** ** ResponseComposer for any value of QUOTES *)

Section ComposerEdges.
Context {E : Environment}.


End ComposerEdges.


(** ** StreamWatcher: a whole feed *)

Lemma for_each_app (A : Type) (body : A -> M unit) (xs ys : list A) (w : World) :
  for_each (xs ++ ys) body w =
  match for_each xs body w with
  | (Returned _, w1) => for_each ys body w1
  | (Raised e, w1) => (Raised e, w1)
  end.
Proof.
  revert w; induction xs as [|x xs IH]; intros w; simpl; [reflexivity|].
  unfold bind. destruct (body x w) as [[[]|e] w1]; [apply IH | reflexivity].
Qed.

Lemma reply_targets_app (a b : list call) :
  reply_targets (a ++ b) = reply_targets a ++ reply_targets b.
Proof. apply flat_map_app. Qed.

Lemma read_targets_app (a b : list call) :
  read_targets (a ++ b) = read_targets a ++ read_targets b.
Proof. apply flat_map_app. Qed.

Section LoopSummary.
Context {E : Environment}.

Variable A : Type.
Variable pol : A -> bool.
Variable ref : A -> item_ref.
Variable extra : A -> list call.
Variable body : A -> M unit.

Hypothesis body_skip :
  forall x w, pol x = false -> body x w = (Returned tt, w).
Hypothesis body_reply :
  forall x w, pol x = true -> g_QUOTES w = QUOTES ->
    exists quote, In quote QUOTES /\
      body x w =
      (Returned tt,
       with_calls (Reply (ref x) (comment_string quote) :: extra x) (drew w)).
Hypothesis extra_no_reply :
  forall x, reply_targets (extra x) = [] /\ Forall well_formed_call (extra x).

(** The loop over a feed, when no call raises: one reply for each item that
    passes the test, in the order of the feed. *)
Lemma for_each_summary (items : list A) (w : World) :
  g_QUOTES w = QUOTES ->
  exists added,
    for_each items body w =
      (Returned tt,
       {| g_QUOTES := g_QUOTES w; calls := calls w ++ added;
          draws := draws w + length (filter pol items);
          subscriptions := subscriptions w |}) /\
    reply_targets added = map ref (filter pol items) /\
    read_targets added = flat_map (fun x => read_targets (extra x))
                                  (filter pol items) /\
    Forall well_formed_call added.
Proof.
  revert w; induction items as [|x items IH]; intros w HQ.
  - exists []. simpl. rewrite app_nil_r, Nat.add_0_r.
    destruct w; repeat split; constructor.
  - cbn [for_each filter]. unfold bind. destruct (pol x) eqn:Hp.
    + destruct (@body_reply x w Hp HQ) as [quote [Hq Hb]]. rewrite Hb.
      destruct (IH (with_calls (Reply (ref x) (comment_string quote) :: extra x)
                      (drew w)) HQ) as [added [Hf [Hr [Hm Hw]]]].
      exists ((Reply (ref x) (comment_string quote) :: extra x) ++ added).
      rewrite Hf. cbn [with_calls drew g_QUOTES calls draws subscriptions].
      destruct (extra_no_reply x) as [Hx Hxw].
      split; [|split; [|split]].
      * rewrite <- app_assoc. cbn [length]. now rewrite Nat.add_succ_comm.
      * rewrite reply_targets_app. cbn [reply_targets flat_map app map].
        fold (reply_targets (extra x)). now rewrite Hx, Hr.
      * rewrite read_targets_app. cbn [read_targets flat_map app].
        fold (read_targets (extra x)). now rewrite Hm.
      * apply Forall_app. split; [|assumption].
        constructor; [now exists quote | assumption].
    + rewrite (@body_skip x w Hp). now apply IH.
Qed.

End LoopSummary.

Section FeedFacts.
Context {U : UnicodeData} {E : Environment}.

Lemma is_eligible_spec (message : InboxItem) :
  is_eligible message = true <-> mention_eligible message.
Proof.
  unfold is_eligible, mention_eligible.
  now rewrite andb_true_iff, str_eq_spec.
Qed.

Section Calm.
Hypothesis platform_calm : calm E.

Lemma platform_call_calm (c : call) (w : World) :
  platform_call c w = (Returned tt, record_call c w).
Proof. unfold platform_call. now rewrite platform_calm. Qed.

Lemma write_comment_calm (obj : item_ref) (w : World) :
  g_QUOTES w = QUOTES ->
  exists quote, In quote QUOTES /\
    write_comment obj w =
    (Returned tt, record_call (Reply obj (comment_string quote)) (drew w)).
Proof.
  intros HQ. destruct (@write_comment_spec E obj w HQ) as [quote [Hq Hw]].
  exists quote. split; [assumption|]. now rewrite Hw, platform_call_calm.
Qed.

Lemma on_comment_calm (comment : Comment) (w : World) :
  should_comment_on_comment comment = true -> g_QUOTES w = QUOTES ->
  exists quote, In quote QUOTES /\
    on_comment comment w =
    (Returned tt,
     with_calls
       (Reply (CommentRef (comment_id comment)) (comment_string quote)
        :: [LogRecord INFO
              (py "Added comment to comment: " ++ comment_body comment)])
       (drew w)).
Proof.
  intros Hp HQ. unfold on_comment, bind. rewrite logger_debug_silent.
  cbv zeta. rewrite Hp.
  destruct (write_comment_calm (CommentRef (comment_id comment)) w HQ)
    as [quote [Hq Hw]].
  exists quote. split; [assumption|]. rewrite Hw, logger_info_emits.
  unfold record_call, with_calls. cbn [g_QUOTES calls draws subscriptions drew].
  now rewrite <- app_assoc.
Qed.

Lemma on_post_calm (post : Submission) (w : World) :
  should_comment_on_post post = true -> g_QUOTES w = QUOTES ->
  exists quote, In quote QUOTES /\
    on_post post w =
    (Returned tt,
     with_calls
       (Reply (SubmissionRef (post_id post)) (comment_string quote)
        :: [LogRecord INFO (py "Added comment to post: " ++ post_title post)])
       (drew w)).
Proof.
  intros Hp HQ. unfold on_post, bind. rewrite logger_debug_silent.
  cbv zeta. rewrite Hp.
  destruct (write_comment_calm (SubmissionRef (post_id post)) w HQ)
    as [quote [Hq Hw]].
  exists quote. split; [assumption|]. rewrite Hw, logger_info_emits.
  unfold record_call, with_calls. cbn [g_QUOTES calls draws subscriptions drew].
  now rewrite <- app_assoc.
Qed.

Lemma on_mention_calm (message : InboxItem) (w : World) :
  is_eligible message = true -> g_QUOTES w = QUOTES ->
  exists quote, In quote QUOTES /\
    on_mention message w =
    (Returned tt,
     with_calls
       (Reply (CommentRef (item_id message)) (comment_string quote)
        :: [LogRecord INFO
              (py "Added comment to message: " ++ item_body message);
            MarkRead (CommentRef (item_id message))])
       (drew w)).
Proof.
  intros Hp HQ. apply is_eligible_spec in Hp.
  destruct (on_mention_eligible w Hp HQ) as [quote [Hq Hm]].
  exists quote. split; [assumption|]. rewrite Hm. cbv zeta.
  rewrite platform_calm, platform_call_calm.
  unfold record_call, with_calls. cbn [g_QUOTES calls draws subscriptions drew].
  now rewrite <- !app_assoc.
Qed.

Lemma on_mention_skipped (message : InboxItem) (w : World) :
  is_eligible message = false -> on_mention message w = (Returned tt, w).
Proof.
  intros H. apply on_mention_not_eligible. rewrite <- is_eligible_spec.
  congruence.
Qed.

Lemma consume_end (A : Type) (feed : Feed A) (body : A -> M unit)
      (w w1 : World) :
  for_each (delivered feed) body w = (Returned tt, w1) ->
  consume feed body w =
  (match ending feed with Some e => Raised e | None => Returned tt end, w1).
Proof.
  intros H. unfold consume, bind. rewrite H. now destruct (ending feed).
Qed.

(** X5. One run of the handler of the comments watcher, and of the posts
    watcher, when QUOTES has its value and no call on the platform raises.
    The handler opens one subscription and handles the items the feed
    delivers, in order: it replies once to each item on which the policy
    answers true and to no other, every reply is a quote followed by the
    footer, nothing is marked read, and one random number is drawn for each
    reply.  It ends as the feed ends: it returns when the feed is exhausted
    and raises what the feed raises. *)
Theorem watcher_replies_to_triggering_items (name : pystr) (w : World) :
  g_QUOTES w = QUOTES ->
  (exists added,
     calls (snd (iterate_comments_handler name w)) = calls w ++ added /\
     reply_targets added =
       map (fun c => CommentRef (comment_id c))
           (filter should_comment_on_comment
                   (delivered (comments_stream name (subscriptions w)))) /\
     read_targets added = [] /\
     Forall well_formed_call added /\
     draws (snd (iterate_comments_handler name w)) =
       draws w + length (filter should_comment_on_comment
                           (delivered (comments_stream name (subscriptions w)))) /\
     subscriptions (snd (iterate_comments_handler name w)) =
       S (subscriptions w) /\
     fst (iterate_comments_handler name w) =
       match ending (comments_stream name (subscriptions w)) with
       | Some e => Raised e
       | None => Returned tt
       end) /\
  (exists added,
     calls (snd (iterate_posts_handler name w)) = calls w ++ added /\
     reply_targets added =
       map (fun p => SubmissionRef (post_id p))
           (filter should_comment_on_post
                   (delivered (submissions_stream name (subscriptions w)))) /\
     read_targets added = [] /\
     Forall well_formed_call added /\
     draws (snd (iterate_posts_handler name w)) =
       draws w + length (filter should_comment_on_post
                           (delivered (submissions_stream name (subscriptions w)))) /\
     subscriptions (snd (iterate_posts_handler name w)) =
       S (subscriptions w) /\
     fst (iterate_posts_handler name w) =
       match ending (submissions_stream name (subscriptions w)) with
       | Some e => Raised e
       | None => Returned tt
       end).
Proof.
  intros HQ. split.
  - assert (Hx : forall c : Comment,
               reply_targets
                 [LogRecord INFO
                    (py "Added comment to comment: " ++ comment_body c)] = [] /\
               Forall well_formed_call
                 [LogRecord INFO
                    (py "Added comment to comment: " ++ comment_body c)])
      by (intros c; split; [reflexivity | repeat constructor]).
    destruct (@for_each_summary E Comment should_comment_on_comment
                (fun c => CommentRef (comment_id c))
                (fun c => [LogRecord INFO
                             (py "Added comment to comment: " ++ comment_body c)])
                on_comment on_comment_skipped on_comment_calm Hx
                (delivered (comments_stream name (subscriptions w)))
                (snd (open_stream (comments_stream name) w)) HQ)
      as [added [Hf [Hr [Hm Hw]]]].
    exists added. unfold iterate_comments_handler, bind.
    cbn [open_stream snd] in Hf |- *. rewrite (@consume_end _ _ _ _ _ Hf).
    cbn [fst snd calls draws subscriptions]. repeat split; try assumption.
    rewrite Hm. clear. induction (filter _ _); [reflexivity | assumption].
  - assert (Hx : forall p : Submission,
               reply_targets
                 [LogRecord INFO
                    (py "Added comment to post: " ++ post_title p)] = [] /\
               Forall well_formed_call
                 [LogRecord INFO
                    (py "Added comment to post: " ++ post_title p)])
      by (intros p; split; [reflexivity | repeat constructor]).
    destruct (@for_each_summary E Submission should_comment_on_post
                (fun p => SubmissionRef (post_id p))
                (fun p => [LogRecord INFO
                             (py "Added comment to post: " ++ post_title p)])
                on_post on_post_skipped on_post_calm Hx
                (delivered (submissions_stream name (subscriptions w)))
                (snd (open_stream (submissions_stream name) w)) HQ)
      as [added [Hf [Hr [Hm Hw]]]].
    exists added. unfold iterate_posts_handler, bind.
    cbn [open_stream snd] in Hf |- *. rewrite (@consume_end _ _ _ _ _ Hf).
    cbn [fst snd calls draws subscriptions]. repeat split; try assumption.
    rewrite Hm. clear. induction (filter _ _); [reflexivity | assumption].
Qed.

(** X7. One run of the handler of the mentions watcher, when QUOTES has its
    value and no call on the platform raises: it replies once to each
    delivered item whose normalized subject is "username mention" and that
    is a comment, in the order of the feed, marks read exactly the items it
    replied to, in the same order, and touches no other item. *)
Theorem mentions_replied_are_marked_read (w : World) :
  g_QUOTES w = QUOTES ->
  exists added,
    calls (snd (listen_and_process_mentions_handler tt w)) = calls w ++ added /\
    reply_targets added =
      map (fun m => CommentRef (item_id m))
          (filter is_eligible (delivered (inbox_stream (subscriptions w)))) /\
    read_targets added = reply_targets added /\
    Forall well_formed_call added /\
    fst (listen_and_process_mentions_handler tt w) =
      match ending (inbox_stream (subscriptions w)) with
      | Some e => Raised e
      | None => Returned tt
      end.
Proof.
  intros HQ.
  assert (Hx : forall m : InboxItem,
             reply_targets
               [LogRecord INFO
                  (py "Added comment to message: " ++ item_body m);
                MarkRead (CommentRef (item_id m))] = [] /\
             Forall well_formed_call
               [LogRecord INFO
                  (py "Added comment to message: " ++ item_body m);
                MarkRead (CommentRef (item_id m))])
    by (intros m; split; [reflexivity | repeat constructor]).
  destruct (@for_each_summary E InboxItem is_eligible
              (fun m => CommentRef (item_id m))
              (fun m => [LogRecord INFO
                           (py "Added comment to message: " ++ item_body m);
                         MarkRead (CommentRef (item_id m))])
              on_mention on_mention_skipped on_mention_calm Hx
              (delivered (inbox_stream (subscriptions w)))
              (snd (open_stream inbox_stream w)) HQ)
    as [added [Hf [Hr [Hm Hw]]]].
  exists added. unfold listen_and_process_mentions_handler, bind.
  cbn [open_stream snd] in Hf |- *. rewrite (@consume_end _ _ _ _ _ Hf).
  cbn [fst snd calls]. repeat split; try assumption.
  rewrite Hm, Hr. clear.
  induction (filter _ _) as [|m l IH]; [reflexivity|].
  cbn [flat_map map]. rewrite IH. reflexivity.
Qed.

End Calm.
End FeedFacts.

Section FailureFacts.
Context {U : UnicodeData} {E : Environment}.

(** X6. A reply that raises ends the loop of the comments watcher.  When
    the items before a comment were handled and returned, the policy answers
    true on the comment, and the platform raises on the reply to it, the
    loop raises that exception right after the reply: the success record is
    not logged, and the items that follow in the feed are not handled,
    whatever they are. *)
Theorem failed_reply_ends_the_loop
    (before after : list Comment) (comment : Comment) (w w1 : World)
    (e : py_exception) :
  g_QUOTES w1 = QUOTES ->
  for_each before on_comment w = (Returned tt, w1) ->
  should_comment_on_comment comment = true ->
  (forall text,
     platform_raises (calls w1) (Reply (CommentRef (comment_id comment)) text)
     = Some e) ->
  exists quote,
    In quote QUOTES /\
    for_each (before ++ comment :: after) on_comment w =
    (Raised e,
     record_call
       (Reply (CommentRef (comment_id comment)) (comment_string quote))
       (drew w1)).
Proof.
  intros HQ Hb Hp He.
  destruct (@write_comment_spec E (CommentRef (comment_id comment)) w1 HQ)
    as [quote [Hq Hw]].
  exists quote. split; [assumption|].
  rewrite for_each_app, Hb. cbn [for_each]. unfold bind at 1.
  unfold on_comment, bind. rewrite logger_debug_silent. cbv zeta.
  rewrite Hp, Hw. unfold platform_call. cbn [calls drew].
  now rewrite He.
Qed.

End FailureFacts.

(** ** The entry points under [restart] *)

Section RestartCounts.
Variables State Args : Type.
Variable handler : Args -> State -> outcome unit * State.
Variable log : log_level -> pystr -> State -> State.

(** A counter that every call of the handler advances by one, and that the
    logger leaves alone, counts the calls of the handler. *)
Lemma while_true_counts (f : State -> nat) (fuel : nat) (args : Args)
      (st : State) (seen : list Args) :
  (forall a s, f (snd (handler a s)) = S (f s)) ->
  (forall l m s, f (log l m s) = f s) ->
  f (final (while_true handler log fuel args st seen)) + length seen =
  f st + length (invoked (while_true handler log fuel args st seen)).
Proof.
  intros Hh Hl. revert st seen; induction fuel as [|fuel IH]; intros st seen;
    [reflexivity|].
  rewrite while_true_step. pose proof (Hh args st) as Hn.
  destruct (handler args st) as [[[]|e] st']; cbn [snd] in Hn.
  - pose proof (IH st' (seen ++ [args])) as H.
    rewrite length_app in H. cbn [length] in H. lia.
  - destruct (isinstance_Exception e).
    + pose proof (IH (log ERROR (py "Exception: " ++ exception_str e) st')
                     (seen ++ [args])) as H.
      rewrite Hl, length_app in H. cbn [length] in H. lia.
    + cbn [final invoked]. rewrite length_app. cbn [length]. lia.
Qed.

End RestartCounts.

Section EntryPointFacts.
Context {U : UnicodeData} {E : Environment}.

Lemma subs_bind (A B : Type) (m : M A) (k : A -> M B) :
  keeps_subscriptions m -> (forall a, keeps_subscriptions (k a)) ->
  keeps_subscriptions (bind m k).
Proof.
  intros Hm Hk w. unfold bind. specialize (Hm w).
  destruct (m w) as [[a|e] w']; cbn [snd] in *; [|assumption].
  now rewrite Hk.
Qed.

Lemma subs_logger_log (l : log_level) (msg : pystr) :
  keeps_subscriptions (logger_log l msg).
Proof.
  intros w. unfold logger_log. now destruct (isEnabledFor l).
Qed.

Lemma subs_write_comment (obj : item_ref) :
  keeps_subscriptions (write_comment obj).
Proof.
  intros w. unfold write_comment, bind, get_QUOTES, random_choice.
  destruct (g_QUOTES w) as [|q qs]; [reflexivity|].
  destruct (nth_error _ _); [|reflexivity].
  unfold platform_call. now destruct (platform_raises _ _).
Qed.

Lemma subs_on_comment (comment : Comment) :
  keeps_subscriptions (on_comment comment).
Proof.
  unfold on_comment. apply subs_bind; [apply subs_logger_log | intros _].
  cbv zeta. destruct (should_comment_on_comment comment);
    [|apply subs_logger_log].
  apply subs_bind; [apply subs_write_comment | intros _; apply subs_logger_log].
Qed.

Lemma subs_on_post (post : Submission) : keeps_subscriptions (on_post post).
Proof.
  unfold on_post. apply subs_bind; [apply subs_logger_log | intros _].
  cbv zeta. destruct (should_comment_on_post post); [|apply subs_logger_log].
  apply subs_bind; [apply subs_write_comment | intros _; apply subs_logger_log].
Qed.

Lemma subs_on_mention (message : InboxItem) :
  keeps_subscriptions (on_mention message).
Proof.
  unfold on_mention. cbv zeta. destruct (_ && _); [|intros w; reflexivity].
  apply subs_bind; [apply subs_write_comment | intros _].
  apply subs_bind; [apply subs_logger_log | intros _].
  intros w. unfold platform_call. now destruct (platform_raises _ _).
Qed.

Lemma subs_consume (A : Type) (feed : Feed A) (body : A -> M unit) :
  (forall x, keeps_subscriptions (body x)) ->
  keeps_subscriptions (consume feed body).
Proof.
  intros Hb. unfold consume. apply subs_bind.
  - induction (delivered feed) as [|x xs IH]; [intros w; reflexivity|].
    cbn [for_each]. apply subs_bind; [apply Hb | intros _; apply IH].
  - intros _ w. now destruct (ending feed).
Qed.

Lemma handler_subscribes_once (A : Type) (stream : nat -> Feed A)
      (body : A -> M unit) (w : World) :
  (forall x, keeps_subscriptions (body x)) ->
  subscriptions (snd (bind (open_stream stream) (fun feed => consume feed body) w))
  = S (subscriptions w).
Proof.
  intros Hb. unfold bind. cbn [open_stream].
  now rewrite (@subs_consume A _ body Hb).
Qed.

(** X9. Every iteration of the loop of [restart] starts a fresh
    subscription: for each of the three entry points, after any number of
    iterations, the number of streams opened has grown by the number of
    calls of the handler, whether those calls returned or raised. *)
Theorem each_restart_opens_a_stream (fuel : nat) (name : pystr) (w : World) :
  subscriptions (final (iterate_comments fuel name w)) =
    subscriptions w + length (invoked (iterate_comments fuel name w)) /\
  subscriptions (final (iterate_posts fuel name w)) =
    subscriptions w + length (invoked (iterate_posts fuel name w)) /\
  subscriptions (final (listen_and_process_mentions fuel tt w)) =
    subscriptions w + length (invoked (listen_and_process_mentions fuel tt w)).
Proof.
  assert (Hl : forall l m s, subscriptions (world_log l m s) = subscriptions s)
    by (intros l m s; apply subs_logger_log).
  unfold iterate_comments, iterate_posts, listen_and_process_mentions,
    restart, wrapped_handler.
  repeat split.
  - pose proof (@while_true_counts World pystr iterate_comments_handler
                  world_log subscriptions fuel name
                  (world_log INFO (py "Starting thread with: " ++ repr_name name) w)
                  []) as H.
    cbn [length] in H. rewrite Nat.add_0_r, Hl in H. apply H; [|exact Hl].
    intros a s. apply handler_subscribes_once, subs_on_comment.
  - pose proof (@while_true_counts World pystr iterate_posts_handler
                  world_log subscriptions fuel name
                  (world_log INFO (py "Starting thread with: " ++ repr_name name) w)
                  []) as H.
    cbn [length] in H. rewrite Nat.add_0_r, Hl in H. apply H; [|exact Hl].
    intros a s. apply handler_subscribes_once, subs_on_post.
  - pose proof (@while_true_counts World unit
                  listen_and_process_mentions_handler
                  world_log subscriptions fuel tt
                  (world_log INFO (py "Starting thread with: " ++ py "()") w)
                  []) as H.
    cbn [length] in H. rewrite Nat.add_0_r, Hl in H. apply H; [|exact Hl].
    intros a s. apply handler_subscribes_once, subs_on_mention.
Qed.

End EntryPointFacts.

Section Survival.
Context {U : UnicodeData} {E : Environment}.
Hypothesis environment_ok : raises_Exceptions_only E.

Lemma caught_bind (A B : Type) (m : M A) (k : A -> M B) :
  raises_caught m -> (forall a, raises_caught (k a)) -> raises_caught (bind m k).
Proof.
  intros Hm Hk w e w' H. unfold bind in H.
  destruct (m w) as [[a|e0] w0] eqn:Hmw.
  - eapply Hk; eassumption.
  - injection H as <- <-. eapply Hm; eassumption.
Qed.

Lemma caught_logger_log (l : log_level) (msg : pystr) :
  raises_caught (logger_log l msg).
Proof.
  intros w e w' H. unfold logger_log in H.
  destruct (isEnabledFor l); discriminate H.
Qed.

Lemma caught_platform_call (c : call) : raises_caught (platform_call c).
Proof.
  intros w e w' H. unfold platform_call in H.
  destruct (platform_raises (calls w) c) as [e0|] eqn:Hp; [|discriminate H].
  injection H as <- _. destruct environment_ok as [Hok _].
  eapply Hok; eassumption.
Qed.

Lemma caught_write_comment (obj : item_ref) : raises_caught (write_comment obj).
Proof.
  unfold write_comment.
  apply caught_bind; [intros w e w' H; discriminate H | intros quotes].
  apply caught_bind; [|intros quote; apply caught_platform_call].
  intros w e w' H. unfold random_choice in H.
  destruct quotes as [|q qs]; [now injection H as <- _|].
  destruct (nth_error _ _); [discriminate H | now injection H as <- _].
Qed.

Lemma caught_on_comment (comment : Comment) : raises_caught (on_comment comment).
Proof.
  unfold on_comment. apply caught_bind; [apply caught_logger_log | intros _].
  cbv zeta. destruct (should_comment_on_comment comment);
    [|apply caught_logger_log].
  apply caught_bind; [apply caught_write_comment | intros _].
  apply caught_logger_log.
Qed.

Lemma caught_on_post (post : Submission) : raises_caught (on_post post).
Proof.
  unfold on_post. apply caught_bind; [apply caught_logger_log | intros _].
  cbv zeta. destruct (should_comment_on_post post); [|apply caught_logger_log].
  apply caught_bind; [apply caught_write_comment | intros _].
  apply caught_logger_log.
Qed.

Lemma caught_on_mention (message : InboxItem) :
  raises_caught (on_mention message).
Proof.
  unfold on_mention. cbv zeta.
  destruct (_ && _); [|intros w e w' H; discriminate H].
  apply caught_bind; [apply caught_write_comment | intros _].
  apply caught_bind; [apply caught_logger_log | intros _].
  apply caught_platform_call.
Qed.

Lemma caught_consume (A : Type) (feed : Feed A) (body : A -> M unit) :
  (forall x, raises_caught (body x)) ->
  (forall e, ending feed = Some e -> isinstance_Exception e = true) ->
  raises_caught (consume feed body).
Proof.
  intros Hb He. unfold consume. apply caught_bind.
  - induction (delivered feed) as [|x xs IH];
      [intros w e w' H; discriminate H|].
    cbn [for_each]. apply caught_bind; [apply Hb | intros _; apply IH].
  - intros _ w e w' H. destruct (ending feed) as [e0|]; [|discriminate H].
    injection H as <- _. now apply He.
Qed.

Lemma caught_handlers (name : pystr) :
  raises_caught (iterate_comments_handler name) /\
  raises_caught (iterate_posts_handler name) /\
  raises_caught (listen_and_process_mentions_handler tt).
Proof.
  destruct environment_ok as [_ [Hc [Hs Hi]]].
  repeat split; intros w e w' H;
    unfold iterate_comments_handler, iterate_posts_handler,
      listen_and_process_mentions_handler, bind in H;
    cbn [open_stream] in H.
  - eapply caught_consume; [apply caught_on_comment | apply Hc | exact H].
  - eapply caught_consume; [apply caught_on_post | apply Hs | exact H].
  - eapply caught_consume; [apply caught_on_mention | apply Hi | exact H].
Qed.

(** X10. When what the platform and the feeds raise are instances of
    Exception, none of the three threads ends: whatever the feeds deliver
    and however often the calls fail, after any number of iterations each
    entry point is still inside its loop and has called its handler once
    per iteration. *)
Theorem threads_survive_Exceptions (fuel : nat) (name : pystr) (w : World) :
  (status (iterate_comments fuel name w) = Looping /\
   length (invoked (iterate_comments fuel name w)) = fuel) /\
  (status (iterate_posts fuel name w) = Looping /\
   length (invoked (iterate_posts fuel name w)) = fuel) /\
  (status (listen_and_process_mentions fuel tt w) = Looping /\
   length (invoked (listen_and_process_mentions fuel tt w)) = fuel).
Proof.
  assert (Hgen : forall (Args : Type) (handler : Args -> M unit)
                        (repr : Args -> pystr) (args : Args),
             (forall a, raises_caught (handler a)) ->
             status (restart handler world_log repr fuel args w) = Looping /\
             length (invoked (restart handler world_log repr fuel args w)) = fuel).
  { intros Args handler repr args Hh. unfold restart, wrapped_handler.
    assert (Hs : status (while_true handler world_log fuel args
                           (world_log INFO
                              (py "Starting thread with: " ++ repr args) w) [])
                 = Looping).
    { apply while_true_never_leaves. intros st1 e st2 H.
      eapply Hh; eassumption. }
    split; [exact Hs|].
    destruct (while_true_invoked handler world_log fuel args
                (world_log INFO (py "Starting thread with: " ++ repr args) w) [])
      as [k [_ [Hi [Hl _]]]].
    rewrite Hi. cbn [app]. rewrite repeat_length. now apply Hl. }
  unfold iterate_comments, iterate_posts, listen_and_process_mentions.
  split; [|split]; apply Hgen.
  - intros a. apply (proj1 (caught_handlers a)).
  - intros a. apply (proj1 (proj2 (caught_handlers a))).
  - intros []. apply (proj2 (proj2 (caught_handlers []))).
Qed.

End Survival.

(** ** The further properties on concrete feeds *)

Lemma busy_environment_calm : calm busy_environment.
Proof. intros history c. reflexivity. Qed.

Lemma faulty_environment_raises_Exceptions :
  raises_Exceptions_only faulty_environment.
Proof.
  repeat split.
  - intros history c e H. simpl in H. destruct c; try discriminate H.
    now injection H as <-.
  - intros name n e H. simpl in H. now injection H as <-.
  - intros name n e H. simpl in H. now injection H as <-.
  - intros n e H. simpl in H. now injection H as <-.
Qed.

Lemma watcher_replies_to_triggering_items_witness :
  reply_targets
    (calls (snd (iterate_comments_handler (U := unicode_fragment)
                   (E := busy_environment) (py "quotes") initial_world)))
  = [CommentRef 1].
Proof.
  destruct (@watcher_replies_to_triggering_items unicode_fragment
              busy_environment busy_environment_calm (py "quotes")
              initial_world eq_refl) as [[added [Hc [Hr _]]] _].
  rewrite Hc. cbn [calls initial_world app]. rewrite Hr.
  vm_compute. reflexivity.
Defined.

Lemma mentions_replied_are_marked_read_witness :
  read_targets
    (calls (snd (listen_and_process_mentions_handler (U := unicode_fragment)
                   (E := busy_environment) tt initial_world)))
  = [CommentRef 7; CommentRef 9].
Proof.
  destruct (@mentions_replied_are_marked_read unicode_fragment
              busy_environment busy_environment_calm initial_world eq_refl)
    as [added [Hc [Hr [Hm _]]]].
  rewrite Hc. cbn [calls initial_world app]. rewrite Hm, Hr.
  vm_compute. reflexivity.
Defined.

Lemma failed_reply_ends_the_loop_witness :
  exists quote,
    for_each [plain_comment; sample_comment; marked_comment]
      (on_comment (U := unicode_fragment) (E := faulty_environment))
      initial_world =
    (Raised (PyException (py "503")),
     record_call
       (Reply (CommentRef 1) (comment_string (E := faulty_environment) quote))
       (drew initial_world)).
Proof.
  destruct (@failed_reply_ends_the_loop unicode_fragment faulty_environment
              [plain_comment] [marked_comment] sample_comment
              initial_world initial_world (PyException (py "503")))
    as [quote [_ H]].
  - reflexivity.
  - vm_compute. reflexivity.
  - vm_compute. reflexivity.
  - intros text. reflexivity.
  - exists quote. exact H.
Defined.

Lemma threads_survive_Exceptions_witness :
  status (iterate_comments (U := unicode_fragment) (E := faulty_environment)
            3 (py "quotes") initial_world) = Looping /\
  length (invoked (iterate_comments (U := unicode_fragment)
                     (E := faulty_environment) 3 (py "quotes") initial_world))
  = 3.
Proof.
  exact (proj1 (@threads_survive_Exceptions unicode_fragment faulty_environment
                  faulty_environment_raises_Exceptions 3 (py "quotes")
                  initial_world)).
Defined.

(** One iteration of the comments thread against a platform that refuses
    the reply: the start record, the reply, the record of the exception. *)
Example one_failed_iteration :
  calls (final (iterate_comments (U := unicode_fragment)
                  (E := faulty_environment) 1 (py "quotes") initial_world)) =
  [LogRecord INFO (py "Starting thread with: ('quotes',)");
   Reply (CommentRef 1)
     (py "We are the creators of our own reality, the architects of our own destiny."
      ++ [10%N; 10%N]
      ++ py "[^(source)](https://www.reddit.com/user/pradon-bot)");
   LogRecord ERROR (py "Exception: 503")].
Proof. vm_compute. reflexivity. Qed.

(** ** What normalized text looks like, and texts inside longer texts *)

Section NormalForm.
Context {U : UnicodeData} {HS : LowerStable U}.

(** X11. Given that the lowercase mappings of the Unicode database produce
    lowercase characters, normalized text holds no ASCII capital, no
    punctuation character and no capital sigma, and it is lowercase
    already: [str.lower] returns it unchanged. *)
Theorem standardize_text_is_lowercase (text : pystr) :
  Forall (fun c => is_ascii_upper c = false /\ is_punctuation c = false /\
                   c <> CAPITAL_SIGMA) (standardize_text text) /\
  lower (standardize_text text) = standardize_text text.
Proof.
  rewrite standardize_text_spec. unfold spec_normalize.
  assert (Hf : Forall lower_fixed (remove_punctuation (lower text))).
  { unfold remove_punctuation. apply Forall_filter_keep.
    apply do_lower_output_fixed. }
  split; [|now apply do_lower_fixed].
  pose proof (remove_punctuation_clean (lower text)) as Hc.
  rewrite Forall_forall in *. intros c Hin.
  destruct (Hf c Hin) as [Hs [Hu _]]. repeat split; auto.
Qed.

End NormalForm.

Lemma standardize_text_is_lowercase_witness :
  lower (U := unicode_fragment)
    (standardize_text (U := unicode_fragment) sample_text) =
  standardize_text (U := unicode_fragment) sample_text.
Proof.
  exact (proj2 (@standardize_text_is_lowercase unicode_fragment
                  unicode_fragment_stable sample_text)).
Defined.

Section Embedding.
Context {U : UnicodeData} {E : Environment}.
Hypothesis keyword_iter_perm : Permutation keyword_iter KEYWORDS.

(** X12. A triggering text stays triggering inside a longer one: when the
    policy answers true on an ASCII body, it answers true on any ASCII text
    with that body inside it, unless the longer text holds the marker. *)
Theorem policy_true_inside_longer_text (id id' : N) (before body after : pystr) :
  Forall (fun c => (c < 128)%N) before ->
  Forall (fun c => (c < 128)%N) body ->
  Forall (fun c => (c < 128)%N) after ->
  should_comment_on_comment {| comment_id := id; comment_body := body |} = true ->
  ~ occurs_ci DONT_COMMENT_KEYWORD (before ++ body ++ after) ->
  should_comment_on_comment
    {| comment_id := id'; comment_body := before ++ body ++ after |} = true.
Proof.
  intros Hb Hm Ha Ht Hn.
  apply (should_comment_on_comment_spec keyword_iter_perm) in Ht.
  cbn [comment_body] in Ht. destruct Ht as [_ [k [Hin Hk]]].
  apply (should_comment_on_comment_spec keyword_iter_perm).
  cbn [comment_body]. split; [assumption|].
  exists k. split; [assumption|].
  assert (Hma : Forall (fun c => (c < 128)%N) (body ++ after))
    by (apply Forall_app; now split).
  rewrite !standardize_text_ascii by (repeat (apply Forall_app; split); assumption).
  rewrite standardize_text_ascii in Hk by assumption.
  rewrite !map_app, !remove_punctuation_app.
  apply occurs_in_app. right. apply occurs_in_app. now left.
Qed.

End Embedding.

Lemma policy_true_inside_longer_text_witness :
  should_comment_on_comment (U := unicode_fragment) (E := sample_environment)
    {| comment_id := 6;
       comment_body := py "I think: " ++ py "Reality is fragile" ++ py ", no?" |}
  = true.
Proof.
  apply (@policy_true_inside_longer_text unicode_fragment sample_environment
           sample_environment_perm 1 6).
  - repeat constructor.
  - repeat constructor.
  - repeat constructor.
  - vm_compute. reflexivity.
  - apply str_in_false. vm_compute. reflexivity.
Defined.

(** ** The mentions watcher, item by item along its feed *)

Example repr_name_samples :
  repr_name (py "quotes") = py "('quotes',)" /\
  repr_name (py "it's") = py "(" ++ [34%N] ++ py "it's" ++ [34%N] ++ py ",)" /\
  repr_name (py "x\y") = py "('x\\y',)" /\
  repr_name [97; 1; 98; 127]%N = py "('a\x01b\x7f',)".
Proof. repeat split. Qed.

Lemma consume_split (A : Type) (feed : Feed A) (body : A -> M unit)
      (before after : list A) (x : A) (w w1 : World) :
  delivered feed = before ++ x :: after ->
  for_each before body w = (Returned tt, w1) ->
  consume feed body w =
  match body x w1 with
  | (Returned _, w2) =>
      consume {| delivered := after; ending := ending feed |} body w2
  | (Raised e, w2) => (Raised e, w2)
  end.
Proof.
  intros Hd Hb. unfold consume, bind. cbn [delivered ending].
  rewrite Hd, for_each_app, Hb. cbn [for_each]. unfold bind.
  destruct (body x w1) as [[[]|e] w2]; reflexivity.
Qed.

Section MentionsWatcher.
Context {U : UnicodeData} {E : Environment}.

(** C4, as the code has it.  The mentions watcher reads the items of the
    inbox feed in order.  Take an item of the feed, the items before it
    having been handled, in a run where QUOTES has its value.
    - When its normalized subject is not "username mention", or it is not a
      comment, the item causes no call, whatever its text holds: the
      watcher goes on with the items after it in the state it was in.
    - When its normalized subject is "username mention" and it is a
      comment, the watcher sends the reply, a quote followed by the footer.
      If the reply returns, the watcher logs the success and then calls
      [mark_read] on the item, and goes on with the items after it (or
      raises what [mark_read] raised).  If the reply raises, the exception
      leaves the watcher at once: the item is not marked read and the items
      after it are not handled.
    - Every casing of "Username Mention" is a subject that qualifies. *)
Theorem mentions_watcher_reply_then_mark_read
    (before after : list InboxItem) (message : InboxItem) (w w1 : World) :
  g_QUOTES w = QUOTES ->
  delivered (inbox_stream (subscriptions w)) = before ++ message :: after ->
  for_each before on_mention (snd (open_stream inbox_stream w))
  = (Returned tt, w1) ->
  (~ mention_eligible message ->
   listen_and_process_mentions_handler tt w =
   consume {| delivered := after;
              ending := ending (inbox_stream (subscriptions w)) |}
           on_mention w1) /\
  (mention_eligible message ->
   exists quote,
     In quote QUOTES /\
     (platform_raises (calls w1)
        (Reply (CommentRef (item_id message)) (comment_string quote)) = None ->
      calls (record_call (MarkRead (CommentRef (item_id message)))
               (replied_and_logged message quote w1)) =
        calls w1 ++
        [Reply (CommentRef (item_id message)) (comment_string quote);
         LogRecord INFO (py "Added comment to message: " ++ item_body message);
         MarkRead (CommentRef (item_id message))] /\
      listen_and_process_mentions_handler tt w =
      match platform_raises (calls (replied_and_logged message quote w1))
              (MarkRead (CommentRef (item_id message))) with
      | None =>
          consume {| delivered := after;
                     ending := ending (inbox_stream (subscriptions w)) |}
                  on_mention
                  (record_call (MarkRead (CommentRef (item_id message)))
                     (replied_and_logged message quote w1))
      | Some e =>
          (Raised e,
           record_call (MarkRead (CommentRef (item_id message)))
             (replied_and_logged message quote w1))
      end) /\
     (forall e,
        platform_raises (calls w1)
          (Reply (CommentRef (item_id message)) (comment_string quote)) = Some e ->
        listen_and_process_mentions_handler tt w =
          (Raised e,
           record_call
             (Reply (CommentRef (item_id message)) (comment_string quote))
             (drew w1)) /\
        read_targets
          (calls (record_call
                    (Reply (CommentRef (item_id message)) (comment_string quote))
                    (drew w1)))
        = read_targets (calls w1))) /\
  (forall subject,
     same_letters subject (py "Username Mention") ->
     standardize_text subject = py "username mention").
Proof.
  intros HQ Hd Hb.
  assert (HQ1 : g_QUOTES w1 = QUOTES).
  { pose proof (@keeps_for_each InboxItem on_mention before
                  (fun x => keeps_on_mention x)
                  (snd (open_stream inbox_stream w))) as Hk.
    rewrite Hb in Hk. cbn [snd open_stream g_QUOTES] in Hk. congruence. }
  assert (Hrun : listen_and_process_mentions_handler tt w =
                 match on_mention message w1 with
                 | (Returned _, w2) =>
                     consume {| delivered := after;
                                ending := ending (inbox_stream (subscriptions w)) |}
                             on_mention w2
                 | (Raised e, w2) => (Raised e, w2)
                 end).
  { unfold listen_and_process_mentions_handler, bind. cbn [open_stream].
    cbn [snd open_stream] in Hb.
    exact (@consume_split InboxItem (inbox_stream (subscriptions w)) on_mention
             before after message _ w1 Hd Hb). }
  split; [|split].
  - intros Hn. now rewrite Hrun, (on_mention_not_eligible w1 Hn).
  - intros He. destruct (on_mention_eligible w1 He HQ1) as [quote [Hq Hm]].
    cbv zeta in Hm. exists quote. split; [assumption|]. split.
    + intros Hok. split.
      * unfold replied_and_logged, record_call.
        cbn [calls drew]. now rewrite <- !app_assoc.
      * rewrite Hrun, Hm, Hok. unfold platform_call, replied_and_logged.
        destruct (platform_raises _ (MarkRead _)); reflexivity.
    + intros e Hr. split.
      * now rewrite Hrun, Hm, Hr.
      * unfold record_call. cbn [calls drew].
        rewrite read_targets_app. cbn. now rewrite app_nil_r.
  - apply subject_any_case.
Qed.

End MentionsWatcher.

Lemma mentions_watcher_reply_then_mark_read_witness :
  exists quote,
    In quote QUOTES /\
    listen_and_process_mentions_handler (U := unicode_fragment)
      (E := busy_environment) tt initial_world =
    consume {| delivered := [marked_mention]; ending := None |}
      (on_mention (U := unicode_fragment) (E := busy_environment))
      (record_call (MarkRead (CommentRef 7))
         (replied_and_logged (E := busy_environment) sample_mention quote
            (snd (open_stream (inbox_stream (Environment := busy_environment))
                    initial_world)))).
Proof.
  destruct (@mentions_watcher_reply_then_mark_read unicode_fragment
              busy_environment [] [marked_mention] sample_mention
              initial_world
              (snd (open_stream (inbox_stream (Environment := busy_environment))
                      initial_world))
              eq_refl eq_refl eq_refl) as [_ [H _]].
  destruct (H sample_mention_eligible) as [quote [Hq [Hok _]]].
  exists quote. split; [exact Hq | exact (proj2 (Hok eq_refl))].
Defined.

(** The claim C4 as stated fails when the reply raises: this inbox item is
    a comment with the subject "Username Mention", the watcher calls
    [reply] on it, the platform refuses the reply, and the item is not
    marked read. *)
Lemma eligible_mention_left_unread :
  mention_eligible (U := unicode_fragment) sample_mention /\
  fst (listen_and_process_mentions_handler (U := unicode_fragment)
         (E := faulty_environment) tt initial_world)
  = Raised (PyException (py "503")) /\
  reply_targets
    (calls (snd (listen_and_process_mentions_handler (U := unicode_fragment)
                   (E := faulty_environment) tt initial_world)))
  = [CommentRef 7] /\
  read_targets
    (calls (snd (listen_and_process_mentions_handler (U := unicode_fragment)
                   (E := faulty_environment) tt initial_world)))
  = [].
Proof.
  split; [exact sample_mention_eligible|].
  repeat split; vm_compute; reflexivity.
Qed.
